(** * Anomaly correction workflow of the journey log explorer

    Shallow embedding of [App.handleAnomalyCorrection] and of the React
    state it reads and writes (the [useState] cells of [App]), over an
    explicit JavaScript object store: arrays and row objects live at
    locations, values are primitives or references. *)

From stdpp Require Import base gmap sets list strings pretty sorting.

(** ** JavaScript values and the object store *)

Module Js.

Abbreviation loc := positive.

(** The values a row, a field or a state cell can hold.  Numbers are the
    integral ones (indices, counters, odometer readings). *)
Inductive value : Type :=
| VUndefined
| VNull
| VBool (b : bool)
| VNum (n : Z)
| VStr (s : string)
| VRef (l : loc).

#[global] Instance value_eq_dec : EqDecision value.
Proof. solve_decision. Defined.

(** Objects of the store: plain objects (field name to value) and arrays. *)
Inductive object : Type :=
| ORecord (fields : gmap string value)
| OArray (elems : list value).

#[global] Instance object_eq_dec : EqDecision object.
Proof. solve_decision. Defined.

Abbreviation heap := (gmap positive object).

(** [Boolean(v)]: the truthiness test used by [.filter(Boolean)]. *)
Definition Boolean (v : value) : bool :=
  match v with
  | VUndefined | VNull => false
  | VBool b => b
  | VNum n => negb (n =? 0)%Z
  | VStr s => negb (String.eqb s "")
  | VRef _ => true
  end.

(** The characters of a string, each as a one-character string value. *)
Fixpoint chars (s : string) : list value :=
  match s with
  | EmptyString => []
  | String c s' => VStr (String c EmptyString) :: chars s'
  end.

(** Own enumerable properties of an array-like: index keys ["0"], ["1"], ... *)
Definition indexProps (xs : list value) : gmap string value :=
  list_to_map (imap (λ (i : nat) x, (pretty i, x)) xs).

(** The properties copied by object spread [{ ...v }]: the fields of a
    plain object, the index keys of an array or of a string, nothing for
    [null], [undefined], booleans and numbers. *)
Definition ownProps (h : heap) (v : value) : gmap string value :=
  match v with
  | VRef l =>
      match h !! l with
      | Some (ORecord fields) => fields
      | Some (OArray elems) => indexProps elems
      | None => ∅
      end
  | VStr s => indexProps (chars s)
  | _ => ∅
  end.

(** What array spread [[...v]] iterates over; [None] is the [TypeError]
    raised for a value that is not iterable. *)
Definition iterate (h : heap) (v : value) : option (list value) :=
  match v with
  | VRef l =>
      match h !! l with
      | Some (OArray elems) => Some elems
      | _ => None
      end
  | VStr s => Some (chars s)
  | _ => None
  end.

(** Computations that allocate in the store. *)
Definition M (A : Type) : Type := heap → A * heap.

Definition ret {A} (a : A) : M A := λ h, (a, h).

Definition bind {A B} (m : M A) (k : A → M B) : M B :=
  λ h, let '(a, h') := m h in k a h'.

(** A new object is placed at a location the store does not use yet. *)
Definition alloc (o : object) : M loc :=
  λ h, let l := fresh (dom h) in (l, <[l := o]> h).

End Js.

Import Js.

Notation "x <- m ;; k" := (bind m (λ x, k))
  (at level 100, m at next level, right associativity).

(** ** The correction resolver *)

(** A correction directive [{ tripIndex, action, newData }] as submitted by
    the correction modal. *)
Record directive : Type := Directive {
  tripIndex : Z;
  action : string;
  newData : value;
}.

(** [Array.prototype.filter] with a callback [(item, index)]; [index] is the
    position in the array being filtered. *)
Fixpoint filter_from (p : value → nat → bool) (index : nat) (xs : list value)
  : list value :=
  match xs with
  | [] => []
  | item :: rest =>
      if p item index
      then item :: filter_from p (S index) rest
      else filter_from p (S index) rest
  end.

(** [Array.prototype.map] with a callback [(item, index)] that may allocate. *)
Fixpoint map_from (f : value → nat → M value) (index : nat) (xs : list value)
  : M (list value) :=
  match xs with
  | [] => ret []
  | item :: rest =>
      y <- f item index ;;
      ys <- map_from f (S index) rest ;;
      ret (y :: ys)
  end.

(** The body of [corrections.forEach]: one directive is entered in the
    [indicesToRemove] set or in the [updates] map. *)
Definition record_directive (acc : gset Z * gmap Z value) (c : directive)
  : gset Z * gmap Z value :=
  if String.eqb (action c) "skip" then ({[ tripIndex c ]} ∪ acc.1, acc.2)
  else if String.eqb (action c) "correct"
       then (acc.1, <[ tripIndex c := newData c ]> acc.2)
       else acc.

Definition collect (corrections : list directive) : gset Z * gmap Z value :=
  foldl record_directive (∅, ∅) corrections.

(** [indicesToRemove.has(index)]. *)
Definition has (indicesToRemove : gset Z) (index : nat) : bool :=
  bool_decide (Z.of_nat index ∈ indicesToRemove).

(** The callback of [.map]: [null] for an index in the skip set, a new
    object [{ ...item, ...updates.get(index) }] for an index with an update,
    the item itself otherwise. *)
Definition patchRow (indicesToRemove : gset Z) (updates : gmap Z value)
    (item : value) (index : nat) : M value :=
  if has indicesToRemove index then ret VNull
  else match updates !! Z.of_nat index with
       | Some patch =>
           λ h, let '(l, h') :=
                  alloc (ORecord (ownProps h patch ∪ ownProps h item)) h in
                (VRef l, h')
       | None => ret item
       end.

(** The resolver core of [handleAnomalyCorrection], from the copy of the
    pending array to [finalData]; [pending] is the content of
    [pendingJourneyData].  Every array expression yields a new array. *)
Definition applyCorrections (pending : list value) (corrections : list directive)
  : M loc :=
  _cleanedData <- alloc (OArray pending) ;;
  let '(indicesToRemove, updates) := collect corrections in
  let kept := filter_from (λ _ index, negb (has indicesToRemove index)) 0 pending in
  _kept <- alloc (OArray kept) ;;
  mapped <- map_from (patchRow indicesToRemove updates) 0 kept ;;
  _mapped <- alloc (OArray mapped) ;;
  alloc (OArray (filter (λ v, Boolean v = true) mapped)).

(** The elements of the array a run returned. *)
Definition rows_of (r : positive * gmap positive object) : list value :=
  match r.2 !! r.1 with
  | Some (OArray elems) => elems
  | _ => []
  end.

(** The corrected dataset: the content of [finalData]. *)
Definition corrected (h : gmap positive object) (pending : list value)
    (corrections : list directive) : list value :=
  rows_of (applyCorrections pending corrections h).

(** ** Session state *)

(** The [useState] cells of [App] together with the store they point into. *)
Record session : Type := Session {
  store : gmap positive object;
  journeyData : value;
  vehicleStatusData : value;
  chargingData : value;
  activeTab : string;
  uploadModalOpened : bool;
  costCalculatorSignal : Z;
  anomalies : value;
  pendingJourneyData : value;
  anomalyModalOpened : bool;
}.

Inductive outcome : Type :=
| Returned
| Threw (error : string).

(** [handleAnomalyCorrection(corrections)]: the spread of
    [pendingJourneyData] raises before any setter runs when it is not
    iterable; otherwise the four setters run. *)
Definition handleAnomalyCorrection (corrections : list directive) (st : session)
  : outcome * session :=
  match iterate (store st) (pendingJourneyData st) with
  | None => (Threw "TypeError", st)
  | Some pending =>
      let '(finalData, h1) := applyCorrections pending corrections (store st) in
      let '(noAnomalies, h2) := alloc (OArray []) h1 in
      (Returned,
       {| store := h2;
          journeyData := VRef finalData;
          vehicleStatusData := vehicleStatusData st;
          chargingData := chargingData st;
          activeTab := activeTab st;
          uploadModalOpened := uploadModalOpened st;
          costCalculatorSignal := costCalculatorSignal st;
          anomalies := VRef noAnomalies;
          pendingJourneyData := VNull;
          anomalyModalOpened := false |})
  end.

(** [closeAnomalyModal], the [close] of [useDisclosure]: the handler given
    to the modal as [onClose]. *)
Definition closeAnomalyModal (st : session) : session :=
  {| store := store st;
     journeyData := journeyData st;
     vehicleStatusData := vehicleStatusData st;
     chargingData := chargingData st;
     activeTab := activeTab st;
     uploadModalOpened := uploadModalOpened st;
     costCalculatorSignal := costCalculatorSignal st;
     anomalies := anomalies st;
     pendingJourneyData := pendingJourneyData st;
     anomalyModalOpened := false |}.

(** ** Vocabulary of the statements *)

(** A value of the inputs is closed when it does not point outside the
    store the run starts from. *)
Definition closed (h : gmap positive object) (v : value) : bool :=
  match v with
  | VRef l => bool_decide (is_Some (h !! l))
  | _ => true
  end.

(** The rows and the patches of a call all live in the store. *)
Definition inputs_closed (h : gmap positive object) (pending : list value)
    (corrections : list directive) : bool :=
  forallb (closed h) pending && forallb (λ c, closed h (newData c)) corrections.

(** [r] is a new object, absent from the initial store [h], that holds in
    the final store [hf] the fields of [y] overridden by the fields of the
    [newData] of a correct directive of [D]. *)
Definition patched_from (h hf : gmap positive object) (D : list directive)
    (y r : value) : Prop :=
  ∃ l c, r = VRef l ∧ h !! l = None ∧ c ∈ D ∧ action c = "correct" ∧
         hf !! l = Some (ORecord (ownProps h (newData c) ∪ ownProps h y)).

(** A result row is the pending row [y] itself or a patched copy of it. *)
Definition derived (h hf : gmap positive object) (D : list directive)
    (y r : value) : Prop :=
  r = y ∨ patched_from h hf D y r.

(** The store a run ends in. *)
Definition final_store (h : gmap positive object) (pending : list value)
    (corrections : list directive) : gmap positive object :=
  (applyCorrections pending corrections h).2.

(** The distinct skip indices of a directive list that fall inside a
    dataset of [n] rows. *)
Definition in_range_skips (n : nat) (corrections : list directive) : gset Z :=
  filter (λ i, (0 ≤ i < Z.of_nat n)%Z) (collect corrections).1.

(** Two accumulators of the directive loop that can only be told apart at
    index [t]. *)
Definition agree_off (t : Z) (acc acc' : gset Z * gmap Z value) : Prop :=
  ∀ k, k ≠ t → (k ∈ acc.1 ↔ k ∈ acc'.1) ∧ acc.2 !! k = acc'.2 !! k.

(** The content of the pending dataset and of the anomaly list of a
    session, when they are arrays of the store. *)
Definition pending_rows (st : session) : option (list value) :=
  iterate (store st) (pendingJourneyData st).

Definition anomaly_rows (st : session) : option (list value) :=
  iterate (store st) (anomalies st).

(** Awaiting correction: a pending dataset is present and the anomaly list
    is not empty. *)
Definition awaiting_correction (st : session) : bool :=
  match pending_rows st, anomaly_rows st with
  | Some _, Some (_ :: _) => true
  | _, _ => false
  end.

(** Clean and loaded: an accepted dataset, no pending data, no outstanding
    anomaly, the correction modal closed. *)
Definition clean_loaded (st : session) : bool :=
  match iterate (store st) (journeyData st), anomaly_rows st with
  | Some _, Some [] =>
      bool_decide (pendingJourneyData st = VNull) && negb (anomalyModalOpened st)
  | _, _ => false
  end.

(** ** Sample data *)

Module Sample.

Definition trip (odometerStart odometerEnd distance : Z) : object :=
  ORecord (<["odometerStart" := VNum odometerStart]>
           (<["odometerEnd" := VNum odometerEnd]>
            (<["distance" := VNum distance]> ∅))).

(** Four trips at locations 1 to 4 and a patch object at location 5. *)
Definition h4 : gmap positive object :=
  <[1%positive := trip 100 150 50]>
  (<[2%positive := trip 150 140 (-10)]>
   (<[3%positive := trip 140 200 60]>
    (<[4%positive := trip 200 230 30]>
     (<[5%positive := ORecord (<["distance" := VNum 42]> ∅)]> ∅)))).

Definition a : value := VRef 1.
Definition b : value := VRef 2.
Definition c : value := VRef 3.
Definition d : value := VRef 4.
Definition patch42 : value := VRef 5.

Definition skip (i : Z) : directive := Directive i "skip" VUndefined.
Definition correct (i : Z) (p : value) : directive := Directive i "correct" p.

(** The session before any upload: [useState(null)] everywhere, an empty
    anomaly array, the modals closed. *)
Definition initial : session :=
  {| store := <[1%positive := OArray []]> ∅;
     journeyData := VNull;
     vehicleStatusData := VNull;
     chargingData := VNull;
     activeTab := "overview";
     uploadModalOpened := false;
     costCalculatorSignal := 0;
     anomalies := VRef 1;
     pendingJourneyData := VNull;
     anomalyModalOpened := false |}.

(** A session parked on an import of two trips with one issue: the pending
    array at location 6, the issue at 7, the anomaly array at 9. *)
Definition awaiting : session :=
  {| store :=
       <[6%positive := OArray [a; b]]>
       (<[7%positive := ORecord (<["tripIndex" := VNum 1]> ∅)]>
        (<[9%positive := OArray [VRef 7]]> h4));
     journeyData := VNull;
     vehicleStatusData := VNull;
     chargingData := VNull;
     activeTab := "overview";
     uploadModalOpened := false;
     costCalculatorSignal := 0;
     anomalies := VRef 9;
     pendingJourneyData := VRef 6;
     anomalyModalOpened := true |}.

End Sample.

(** The rows the first [.filter] of the resolver keeps. *)
Definition kept_rows (pending : list value) (corrections : list directive)
  : list value :=
  filter_from (λ _ index, negb (has (collect corrections).1 index)) 0 pending.

(** What the [.map] callback returns for the row [y] it meets at position
    [index]: [null], [y] itself, or a new object of the final store [hf]
    with the fields of [y] overridden by the update entered for [index]. *)
Definition row_outcome (h hf : gmap positive object) (D : list directive)
    (index : nat) (y r : value) : Prop :=
  if has (collect D).1 index then r = VNull
  else match (collect D).2 !! Z.of_nat index with
       | None => r = y
       | Some P =>
           ∃ l, r = VRef l ∧ h !! l = None ∧
                hf !! l = Some (ORecord (ownProps h P ∪ ownProps h y))
       end.

(** ** The other handlers of [App] *)

(** The session over a grown store. *)
Definition with_store (h : gmap positive object) (st : session) : session :=
  {| store := h;
     journeyData := journeyData st;
     vehicleStatusData := vehicleStatusData st;
     chargingData := chargingData st;
     activeTab := activeTab st;
     uploadModalOpened := uploadModalOpened st;
     costCalculatorSignal := costCalculatorSignal st;
     anomalies := anomalies st;
     pendingJourneyData := pendingJourneyData st;
     anomalyModalOpened := anomalyModalOpened st |}.

(** [setJourneyData(v)]. *)
Definition setJourneyData (v : value) (st : session) : session :=
  {| store := store st;
     journeyData := v;
     vehicleStatusData := vehicleStatusData st;
     chargingData := chargingData st;
     activeTab := activeTab st;
     uploadModalOpened := uploadModalOpened st;
     costCalculatorSignal := costCalculatorSignal st;
     anomalies := anomalies st;
     pendingJourneyData := pendingJourneyData st;
     anomalyModalOpened := anomalyModalOpened st |}.

(** [setVehicleStatusData(v)]. *)
Definition setVehicleStatusData (v : value) (st : session) : session :=
  {| store := store st;
     journeyData := journeyData st;
     vehicleStatusData := v;
     chargingData := chargingData st;
     activeTab := activeTab st;
     uploadModalOpened := uploadModalOpened st;
     costCalculatorSignal := costCalculatorSignal st;
     anomalies := anomalies st;
     pendingJourneyData := pendingJourneyData st;
     anomalyModalOpened := anomalyModalOpened st |}.

(** [setChargingData(v)]. *)
Definition setChargingData (v : value) (st : session) : session :=
  {| store := store st;
     journeyData := journeyData st;
     vehicleStatusData := vehicleStatusData st;
     chargingData := v;
     activeTab := activeTab st;
     uploadModalOpened := uploadModalOpened st;
     costCalculatorSignal := costCalculatorSignal st;
     anomalies := anomalies st;
     pendingJourneyData := pendingJourneyData st;
     anomalyModalOpened := anomalyModalOpened st |}.

(** [setActiveTab(tab)], also the [onTabChange] given to the layout. *)
Definition setActiveTab (tab : string) (st : session) : session :=
  {| store := store st;
     journeyData := journeyData st;
     vehicleStatusData := vehicleStatusData st;
     chargingData := chargingData st;
     activeTab := tab;
     uploadModalOpened := uploadModalOpened st;
     costCalculatorSignal := costCalculatorSignal st;
     anomalies := anomalies st;
     pendingJourneyData := pendingJourneyData st;
     anomalyModalOpened := anomalyModalOpened st |}.

(** [setAnomalies(v)]. *)
Definition setAnomalies (v : value) (st : session) : session :=
  {| store := store st;
     journeyData := journeyData st;
     vehicleStatusData := vehicleStatusData st;
     chargingData := chargingData st;
     activeTab := activeTab st;
     uploadModalOpened := uploadModalOpened st;
     costCalculatorSignal := costCalculatorSignal st;
     anomalies := v;
     pendingJourneyData := pendingJourneyData st;
     anomalyModalOpened := anomalyModalOpened st |}.

(** [setPendingJourneyData(v)]. *)
Definition setPendingJourneyData (v : value) (st : session) : session :=
  {| store := store st;
     journeyData := journeyData st;
     vehicleStatusData := vehicleStatusData st;
     chargingData := chargingData st;
     activeTab := activeTab st;
     uploadModalOpened := uploadModalOpened st;
     costCalculatorSignal := costCalculatorSignal st;
     anomalies := anomalies st;
     pendingJourneyData := v;
     anomalyModalOpened := anomalyModalOpened st |}.

(** [openAnomalyModal], the [open] of [useDisclosure]. *)
Definition openAnomalyModal (st : session) : session :=
  {| store := store st;
     journeyData := journeyData st;
     vehicleStatusData := vehicleStatusData st;
     chargingData := chargingData st;
     activeTab := activeTab st;
     uploadModalOpened := uploadModalOpened st;
     costCalculatorSignal := costCalculatorSignal st;
     anomalies := anomalies st;
     pendingJourneyData := pendingJourneyData st;
     anomalyModalOpened := true |}.

(** [openUploadModal]. *)
Definition openUploadModal (st : session) : session :=
  {| store := store st;
     journeyData := journeyData st;
     vehicleStatusData := vehicleStatusData st;
     chargingData := chargingData st;
     activeTab := activeTab st;
     uploadModalOpened := true;
     costCalculatorSignal := costCalculatorSignal st;
     anomalies := anomalies st;
     pendingJourneyData := pendingJourneyData st;
     anomalyModalOpened := anomalyModalOpened st |}.

(** [closeUploadModal]. *)
Definition closeUploadModal (st : session) : session :=
  {| store := store st;
     journeyData := journeyData st;
     vehicleStatusData := vehicleStatusData st;
     chargingData := chargingData st;
     activeTab := activeTab st;
     uploadModalOpened := false;
     costCalculatorSignal := costCalculatorSignal st;
     anomalies := anomalies st;
     pendingJourneyData := pendingJourneyData st;
     anomalyModalOpened := anomalyModalOpened st |}.

(** [openCostCalculator]: back to the overview, and the signal goes up by
    one. *)
Definition openCostCalculator (st : session) : session :=
  {| store := store st;
     journeyData := journeyData st;
     vehicleStatusData := vehicleStatusData st;
     chargingData := chargingData st;
     activeTab := "overview";
     uploadModalOpened := uploadModalOpened st;
     costCalculatorSignal := (costCalculatorSignal st + 1)%Z;
     anomalies := anomalies st;
     pendingJourneyData := pendingJourneyData st;
     anomalyModalOpened := anomalyModalOpened st |}.

Section Validator.

(** [DataValidator.validate] is not among the sources: it is a parameter, a
    store computation that yields the entries of the issues array it
    builds, or [None] when it raises. *)
Variable validate :
  value → gmap positive object → option (list value) * gmap positive object.

(** [handleDataLoaded(type, data)].  A journey upload is validated: with
    issues it is parked as pending and the modal opens, without it is
    accepted.  The two other [if]s store vehicle and charging uploads. *)
Definition handleDataLoaded (type : string) (data : value) (st : session)
  : outcome * session :=
  let journey :=
    if String.eqb type "journey" then
      match validate data (store st) with
      | (None, _) => None
      | (Some issues, h1) =>
          let '(l, h2) := alloc (OArray issues) h1 in
          Some (if (0 <? length issues)%nat
                then openAnomalyModal
                       (setPendingJourneyData data
                          (setAnomalies (VRef l) (with_store h2 st)))
                else setJourneyData data (with_store h2 st))
      end
    else Some st in
  match journey with
  | None => (Threw "Error", st)
  | Some st1 =>
      let st2 :=
        if String.eqb type "vehicle" || String.eqb type "vts"
        then setVehicleStatusData data st1 else st1 in
      let st3 :=
        if String.eqb type "charging" || String.eqb type "chronos"
        then setChargingData data st2 else st2 in
      (Returned, st3)
  end.

(** The [value]s of the navigation links of [MainLayout], the only
    arguments it passes to [onTabChange]. *)
Definition mainLinks : list string := ["overview"; "explorer"; "analytics"].

Definition vehicleLinks : list string := ["vehicle"; "charging"; "health"].

(** What the user can do to [App] through its children. *)
Inductive event : Type :=
| DataLoaded (type : string) (data : value)
| Apply (corrections : list directive)
| CloseAnomaly
| LinkClick (i : nat)
| CostCalculatorClick
| UploadClick
| CloseUpload.

(** One event; a handler that raises leaves the cells as they were. *)
Definition dispatch (st : session) (e : event) : session :=
  match e with
  | DataLoaded type data => (handleDataLoaded type data st).2
  | Apply corrections => (handleAnomalyCorrection corrections st).2
  | CloseAnomaly => closeAnomalyModal st
  | LinkClick i =>
      match (mainLinks ++ vehicleLinks) !! i with
      | Some tab => setActiveTab tab st
      | None => st
      end
  | CostCalculatorClick => openCostCalculator st
  | UploadClick => openUploadModal st
  | CloseUpload => closeUploadModal st
  end.

Definition run (st : session) (events : list event) : session :=
  foldl dispatch st events.

End Validator.

(** [v.key] for a field name that is neither an index nor [length]. *)
Definition getField (h : gmap positive object) (v : value) (key : string)
  : value :=
  default VUndefined (ownProps h v !! key).

(** What [renderContent] puts inside the layout. *)
Inductive view : Type :=
| Dashboard (data : value) (signal : Z)
| NoJourneyData
| JourneyExplorer (data : value)
| UploadForExplorer
| TripPlanner
| AnalyticsView (data : value)
| UploadForAnalytics
| VehicleStatus (telematics charging : value) (subTab : string)
| NoVehicleData
| Nothing.

(** [renderContent()]: the [switch] on [activeTab]. *)
Definition renderContent (st : session) : view :=
  let tab := activeTab st in
  if String.eqb tab "overview" then
    if Boolean (journeyData st)
    then Dashboard (journeyData st) (costCalculatorSignal st)
    else NoJourneyData
  else if String.eqb tab "explorer" then
    if Boolean (journeyData st) then JourneyExplorer (journeyData st)
    else UploadForExplorer
  else if String.eqb tab "planner" then TripPlanner
  else if String.eqb tab "analytics" then
    if Boolean (journeyData st) then AnalyticsView (journeyData st)
    else UploadForAnalytics
  else if String.eqb tab "vehicle" || String.eqb tab "charging"
          || String.eqb tab "health" then
    let subTab := if String.eqb tab "charging" then "charging" else "overview" in
    let subTab := if String.eqb tab "health" then "health" else subTab in
    if Boolean (vehicleStatusData st)
    then VehicleStatus (getField (store st) (vehicleStatusData st) "telematics")
                       (chargingData st) subTab
    else NoVehicleData
  else Nothing.

(** ** The charging split of the cost calculator *)

Module CostCalculator.

(** [clampPercent], on integral percentages. *)
Definition clampPercent (value : Z) : Z := Z.min 100 (Z.max 0 value).

(** [publicChargingPercent], derived from the [homeChargingPercent] cell. *)
Definition publicChargingPercent (homeChargingPercent : Z) : Z :=
  (100 - homeChargingPercent)%Z.

(** [handleHomePercentChange(value)]: the new [homeChargingPercent]; [None]
    is the empty input. *)
Definition handleHomePercentChange (value : option Z) : Z :=
  match value with
  | None => 0%Z
  | Some v => clampPercent v
  end.

(** [handlePublicPercentChange(value)]: the new [homeChargingPercent]. *)
Definition handlePublicPercentChange (value : option Z) : Z :=
  match value with
  | None => 100%Z
  | Some v => (100 - clampPercent v)%Z
  end.

(** The changes the two inputs can make to the cell. *)
Inductive change : Type :=
| HomeInput (value : option Z)
| PublicInput (value : option Z).

Definition apply_change (homeChargingPercent : Z) (c : change) : Z :=
  match c with
  | HomeInput v => handleHomePercentChange v
  | PublicInput v => handlePublicPercentChange v
  end.

End CostCalculator.

(** ** Vocabulary of the statements on sessions *)

(** A validator grows the store: it creates issue objects and changes no
    object that is there. *)
Definition grows
    (validate : value → gmap positive object
                → option (list value) * gmap positive object) : Prop :=
  ∀ data h issues h', validate data h = (Some issues, h') → h ⊆ h'.

(** While a dataset is parked or the correction modal is open there is at
    least one anomaly to show. *)
Definition parked_has_anomalies (st : session) : Prop :=
  pendingJourneyData st ≠ VNull ∨ anomalyModalOpened st = true →
  ∃ issue issues, anomaly_rows st = Some (issue :: issues).

Definition is_cost_click (e : event) : bool :=
  match e with
  | CostCalculatorClick => true
  | _ => false
  end.

(** How often the cost calculator was asked for. *)
Definition cost_clicks (events : list event) : nat :=
  length (List.filter is_cost_click events).

(** ** More sample data *)

Module Demo.

(** A validator for the examples: every row that is an object with a
    negative [distance] is reported, as a new issue object naming its
    position. *)
Fixpoint issues_from (index : nat) (rows : list value)
  : gmap positive object → list value * gmap positive object :=
  match rows with
  | [] => ret []
  | row :: rest =>
      λ h,
        match getField h row "distance" with
        | VNum n =>
            if (n <? 0)%Z then
              let '(l, h1) :=
                alloc (ORecord (<["tripIndex" := VNum (Z.of_nat index)]> ∅)) h in
              let '(ls, h2) := issues_from (S index) rest h1 in
              (VRef l :: ls, h2)
            else issues_from (S index) rest h
        | _ => issues_from (S index) rest h
        end
  end.

Definition validate (data : value) (h : gmap positive object)
  : option (list value) * gmap positive object :=
  match iterate h data with
  | Some rows => let '(ls, h') := issues_from 0 rows h in (Some ls, h')
  | None => (None, h)
  end.

(** The sample store with two uploads in it: trips 1 and 2 at location 6,
    trips 1 and 3 at location 7. *)
Definition h6 : gmap positive object :=
  <[6%positive := OArray [Sample.a; Sample.b]]>
  (<[7%positive := OArray [Sample.a; Sample.c]]> Sample.h4).

Definition start : session :=
  {| store := <[10%positive := OArray []]> h6;
     journeyData := VNull;
     vehicleStatusData := VNull;
     chargingData := VNull;
     activeTab := "overview";
     uploadModalOpened := false;
     costCalculatorSignal := 0;
     anomalies := VRef 10;
     pendingJourneyData := VNull;
     anomalyModalOpened := false |}.

End Demo.

(** ** The store only grows *)

Section Store.

Implicit Types (h : gmap positive object) (o : object) (l : positive).

Lemma alloc_spec o h l h' :
  alloc o h = (l, h') → h !! l = None ∧ h' = <[l := o]> h.
Proof.
  unfold alloc. intros [= <- <-]. split; [|done].
  apply not_elem_of_dom, is_fresh.
Qed.

Lemma alloc_subseteq o h l h' : alloc o h = (l, h') → h ⊆ h'.
Proof.
  intros [Hl ->]%alloc_spec. by apply insert_subseteq.
Qed.

Lemma alloc_lookup o h l h' : alloc o h = (l, h') → h' !! l = Some o.
Proof.
  intros [_ ->]%alloc_spec. apply lookup_insert_eq.
Qed.

End Store.

(** ** What the directive list leaves in the set and in the map *)

Section Collect.

Implicit Types (acc : gset Z * gmap Z value) (c d : directive).

Lemma agree_off_refl t acc : agree_off t acc acc.
Proof. by intros k _. Qed.

Lemma record_directive_at t acc d :
  tripIndex d = t → agree_off t (record_directive acc d) acc.
Proof.
  intros <- k Hk. unfold record_directive.
  destruct (String.eqb _ "skip"); simpl.
  { split; [set_solver|done]. }
  destruct (String.eqb _ "correct"); simpl; [|done].
  split; [done|]. by rewrite lookup_insert_ne.
Qed.

Lemma record_directive_agree t acc acc' d :
  agree_off t acc acc' →
  agree_off t (record_directive acc d) (record_directive acc' d).
Proof.
  intros H k Hk. destruct (H k Hk) as [H1 H2]. unfold record_directive.
  destruct (String.eqb _ "skip"); simpl.
  { split; [set_solver|done]. }
  destruct (String.eqb _ "correct"); simpl; [|done].
  split; [done|].
  destruct (decide (tripIndex d = k)) as [->|].
  - by rewrite !lookup_insert_eq.
  - by rewrite !lookup_insert_ne.
Qed.

Lemma foldl_agree t D acc acc' :
  agree_off t acc acc' →
  agree_off t (foldl record_directive acc D) (foldl record_directive acc' D).
Proof.
  revert acc acc'. induction D as [|d D IH]; intros acc acc' H; [done|].
  simpl. by apply IH, record_directive_agree.
Qed.

(** Taking one directive out of the list changes the set and the map at
    most at the index that directive names. *)
Lemma collect_without t D1 d D2 :
  tripIndex d = t →
  agree_off t (collect (D1 ++ d :: D2)) (collect (D1 ++ D2)).
Proof.
  intros Ht. unfold collect. rewrite !foldl_app. simpl.
  by apply foldl_agree, record_directive_at.
Qed.

Lemma record_directive_removed_mono acc d k :
  k ∈ acc.1 → k ∈ (record_directive acc d).1.
Proof.
  unfold record_directive.
  destruct (String.eqb _ "skip"); simpl; [set_solver|].
  by destruct (String.eqb _ "correct").
Qed.

Lemma foldl_removed_mono D acc k :
  k ∈ acc.1 → k ∈ (foldl record_directive acc D).1.
Proof.
  revert acc. induction D as [|d D IH]; intros acc H; [done|].
  simpl. by apply IH, record_directive_removed_mono.
Qed.

(** A skip directive puts its index in the set, whatever else is listed. *)
Lemma collect_skip D s :
  s ∈ D → action s = "skip" → tripIndex s ∈ (collect D).1.
Proof.
  intros [D1 [D2 ->]]%list_elem_of_split Hs.
  unfold collect. rewrite foldl_app. simpl.
  apply foldl_removed_mono. unfold record_directive. rewrite Hs. simpl.
  set_solver.
Qed.

Lemma record_directive_correct acc c :
  action c = "correct" → (record_directive acc c).1 = acc.1.
Proof. intros H. unfold record_directive. by rewrite H. Qed.

Lemma foldl_same_removed D acc acc' :
  acc.1 = acc'.1 →
  (foldl record_directive acc D).1 = (foldl record_directive acc' D).1.
Proof.
  revert acc acc'. induction D as [|d D IH]; intros acc acc' H; [done|].
  simpl. apply IH. unfold record_directive.
  destruct (String.eqb _ "skip"); simpl; [by rewrite H|].
  by destruct (String.eqb _ "correct").
Qed.

(** A correct directive never touches the skip set. *)
Lemma collect_without_correct D1 c D2 :
  action c = "correct" →
  (collect (D1 ++ c :: D2)).1 = (collect (D1 ++ D2)).1.
Proof.
  intros Hc. unfold collect. rewrite !foldl_app. simpl.
  by apply foldl_same_removed, record_directive_correct.
Qed.

End Collect.

(** ** The pipeline consults the set and the map only at array positions *)

Section Extensionality.

Implicit Types (h : gmap positive object) (xs : list value).

Lemma filter_from_ext p q xs i :
  (∀ k item, k < length xs → p item (i + k) = q item (i + k)) →
  filter_from p i xs = filter_from q i xs.
Proof.
  revert i. induction xs as [|x xs IH]; intros i H; [done|]. simpl.
  assert (filter_from p (S i) xs = filter_from q (S i) xs) as ->.
  { apply IH. intros k item Hk.
    replace (S i + k) with (i + S k) by lia. apply H. simpl. lia. }
  specialize (H 0 x). rewrite Nat.add_0_r in H. rewrite H; [done|simpl; lia].
Qed.

Lemma map_from_ext f g xs i h :
  (∀ k item hk, k < length xs → f item (i + k) hk = g item (i + k) hk) →
  map_from f i xs h = map_from g i xs h.
Proof.
  revert i h. induction xs as [|x xs IH]; intros i h H; [done|].
  simpl. unfold bind.
  pose proof (H 0 x h) as H0. rewrite Nat.add_0_r in H0.
  rewrite H0 by (simpl; lia).
  destruct (g x i h) as [y h1].
  rewrite (IH (S i) h1); [done|].
  intros k item hk Hk.
  replace (S i + k) with (i + S k) by lia. apply H. simpl. lia.
Qed.

Lemma filter_from_length p xs i : length (filter_from p i xs) ≤ length xs.
Proof.
  revert i. induction xs as [|x xs IH]; intros i; simpl; [done|].
  specialize (IH (S i)). destruct (p x i); simpl; lia.
Qed.

(** Two directive lists give the same run when their skip sets agree on
    the positions of the pending array and their update maps agree on the
    positions that are not skipped. *)
Lemma applyCorrections_ext xs D D' h :
  (∀ k, k < length xs →
        has (collect D).1 k = has (collect D').1 k ∧
        (has (collect D).1 k = false →
         (collect D).2 !! Z.of_nat k = (collect D').2 !! Z.of_nat k)) →
  applyCorrections xs D h = applyCorrections xs D' h.
Proof.
  intros H. unfold applyCorrections, bind.
  destruct (alloc (OArray xs) h) as [l0 h0].
  destruct (collect D) as [rm up], (collect D') as [rm' up']. simpl in H.
  assert (filter_from (λ _ index, negb (has rm index)) 0 xs =
          filter_from (λ _ index, negb (has rm' index)) 0 xs) as ->.
  { apply filter_from_ext. intros k _ Hk. simpl.
    by destruct (H k Hk) as [-> _]. }
  set (kept := filter_from _ 0 xs).
  destruct (alloc (OArray kept) h0) as [l1 h1].
  rewrite (map_from_ext (patchRow rm up) (patchRow rm' up')); [done|].
  intros k item hk Hk. simpl.
  assert (k < length xs) as Hk'.
  { pose proof (filter_from_length (λ _ index, negb (has rm' index)) xs 0).
    fold kept in H0. lia. }
  destruct (H k Hk') as [H1 H2]. unfold patchRow. rewrite <-H1.
  destruct (has rm k) eqn:E; [done|]. by rewrite H2.
Qed.

Lemma has_spec rm k : has rm k = true ↔ Z.of_nat k ∈ rm.
Proof. unfold has. apply bool_decide_eq_true. Qed.

Lemma has_agree rm rm' k :
  (Z.of_nat k ∈ rm ↔ Z.of_nat k ∈ rm') → has rm k = has rm' k.
Proof.
  intros H. unfold has. by apply bool_decide_ext.
Qed.

End Extensionality.

(** ** Claims about directives that are never consulted *)

(** C5: a directive whose [tripIndex] is negative or at least the length of
    the pending dataset, be it a skip or a correct, has no effect: the run
    (returned array and resulting store) is the run of the directive list
    without it. *)
Theorem out_of_range_directive_noop
    (h : gmap positive object) (pending : list value)
    (D1 D2 : list directive) (d : directive) :
  (tripIndex d < 0 ∨ Z.of_nat (length pending) ≤ tripIndex d)%Z →
  applyCorrections pending (D1 ++ d :: D2) h = applyCorrections pending (D1 ++ D2) h.
Proof.
  intros Hd. apply applyCorrections_ext. intros k Hk.
  assert (Z.of_nat k ≠ tripIndex d) as Hne by lia.
  destruct (collect_without (tripIndex d) D1 d D2 eq_refl _ Hne) as [H1 H2].
  split; [by apply has_agree|done].
Qed.

Lemma out_of_range_directive_noop_witness :
  (tripIndex (Sample.correct 2 Sample.patch42) < 0 ∨
   Z.of_nat (length [Sample.a; Sample.b])
     ≤ tripIndex (Sample.correct 2 Sample.patch42))%Z ∧
  applyCorrections [Sample.a; Sample.b]
      ([Sample.skip 1] ++ Sample.correct 2 Sample.patch42 :: [Sample.skip (-1)])
      Sample.h4 =
  applyCorrections [Sample.a; Sample.b]
      ([Sample.skip 1] ++ [Sample.skip (-1)]) Sample.h4.
Proof.
  assert (tripIndex (Sample.correct 2 Sample.patch42) < 0 ∨
          Z.of_nat (length [Sample.a; Sample.b])
            ≤ tripIndex (Sample.correct 2 Sample.patch42))%Z as H.
  { right. simpl. lia. }
  split; [exact H|].
  exact (out_of_range_directive_noop Sample.h4 [Sample.a; Sample.b]
           [Sample.skip 1] [Sample.skip (-1)] (Sample.correct 2 Sample.patch42) H).
Defined.

Section Trace.

Implicit Types (h : gmap positive object) (xs : list value)
  (kp : list (nat * value)) (js : list nat).

Lemma closed_ownProps h h' v :
  h ⊆ h' → closed h v = true → ownProps h' v = ownProps h v.
Proof.
  intros Hsub Hcl. destruct v as [| | | | |l]; try done. simpl.
  apply bool_decide_eq_true in Hcl as [o Ho].
  by rewrite Ho, (lookup_weaken _ _ _ _ Ho Hsub).
Qed.

Lemma foldl_update D acc k P :
  (foldl record_directive acc D).2 !! k = Some P →
  acc.2 !! k = Some P ∨
  ∃ c, c ∈ D ∧ action c = "correct" ∧ tripIndex c = k ∧ newData c = P.
Proof.
  revert acc. induction D as [|d D IH]; intros acc H; [by left|].
  simpl in H. destruct (IH _ H) as [H1|(c & ? & ? & ? & ?)].
  - unfold record_directive in H1.
    destruct (String.eqb (action d) "skip") eqn:Es; simpl in H1; [by left|].
    destruct (String.eqb (action d) "correct") eqn:Ec; simpl in H1; [|by left].
    apply String.eqb_eq in Ec.
    destruct (decide (tripIndex d = k)) as [Hk|Hk].
    + subst k. rewrite lookup_insert_eq in H1. injection H1 as <-.
      right. exists d. split; [left|done].
    + rewrite lookup_insert_ne in H1 by done. by left.
  - right. exists c. split; [by right|done].
Qed.

(** Every entry of the update map is the [newData] of a correct directive. *)
Lemma collect_update D k P :
  (collect D).2 !! k = Some P →
  ∃ c, c ∈ D ∧ action c = "correct" ∧ tripIndex c = k ∧ newData c = P.
Proof.
  intros [H|H]%foldl_update; [|done]. simpl in H.
  by rewrite lookup_empty in H.
Qed.

Lemma StronglySorted_lt_sublist js js' :
  js' `sublist_of` js → StronglySorted lt js → StronglySorted lt js'.
Proof.
  induction 1 as [|j l1 l2 Hs IH|j l1 l2 Hs IH]; intros Hso.
  - constructor.
  - apply StronglySorted_inv in Hso as [Hso Hall]. constructor; [by apply IH|].
    apply Forall_forall. intros j' Hj'. rewrite Forall_forall in Hall.
    apply Hall. by eapply elem_of_sublist.
  - apply StronglySorted_inv in Hso as [Hso _]. by apply IH.
Qed.

(** The first filter, with the position each kept row had in [xs]. *)
Lemma filter_from_trace (p : value → nat → bool) xs i :
  ∃ kp, kp.*2 = filter_from p i xs ∧
        StronglySorted lt kp.*1 ∧
        Forall (λ jy, i ≤ jy.1 ∧ xs !! (jy.1 - i) = Some jy.2 ∧
                      p jy.2 jy.1 = true) kp.
Proof.
  revert i. induction xs as [|x xs IH]; intros i.
  { exists []. repeat split; constructor. }
  destruct (IH (S i)) as (kp & Hrows & Hsorted & Hall).
  assert (Forall (λ jy : nat * value,
            i ≤ jy.1 ∧ (x :: xs) !! (jy.1 - i) = Some jy.2 ∧
            p jy.2 jy.1 = true) kp) as Hall'.
  { eapply Forall_impl; [exact Hall|]. intros [j y] (Hj & Hy & Hp). simpl in *.
    split; [lia|]. split; [|done].
    replace (j - i) with (S (j - S i)) by lia. done. }
  simpl. destruct (p x i) eqn:Hp.
  - exists ((i, x) :: kp). split; [by rewrite fmap_cons, Hrows|]. split.
    + rewrite fmap_cons. constructor; [done|]. apply Forall_fmap.
      eapply Forall_impl; [exact Hall|]. intros [j y] (Hj & _). simpl in *. lia.
    + constructor; [|done]. simpl. rewrite Nat.sub_diag. done.
  - exists kp. done.
Qed.

Lemma map_from_cons (f : value → nat → M value) i x xs h :
  map_from f i (x :: xs) h =
  let '(y, h1) := f x i h in
  let '(ys, h2) := map_from f (S i) xs h1 in (y :: ys, h2).
Proof. reflexivity. Qed.

(** The map and the final filter: the rows that come out are, in order,
    rows that went in, as they were or patched. *)
Lemma map_from_trace rm D h0 kp :
  (∀ c, c ∈ D → closed h0 (newData c) = true) →
  Forall (λ v, closed h0 v = true) kp.*2 →
  ∀ i h ys h',
    h0 ⊆ h →
    map_from (patchRow rm (collect D).2) i kp.*2 h = (ys, h') →
    h ⊆ h' ∧
    ∃ sel, sel `sublist_of` kp ∧
           ∀ hf, h' ⊆ hf →
                 Forall2 (λ jy r, derived h0 hf D jy.2 r) sel
                         (filter (λ v, Boolean v = true) ys).
Proof.
  intros HD. induction kp as [|[j y] kp IH]; intros Hcl i h ys h' Hsub Hrun.
  { injection Hrun as <- <-. split; [done|]. exists []. split; [done|].
    intros hf _. constructor. }
  rewrite fmap_cons in Hcl, Hrun. cbn [snd] in Hcl, Hrun.
  apply Forall_cons in Hcl as [Hy Hcl].
  rewrite map_from_cons in Hrun.
  destruct (patchRow rm (collect D).2 y i h) as [r h1] eqn:Hrow.
  destruct (map_from _ (S i) kp.*2 h1) as [ys' h2] eqn:Hrest.
  injection Hrun as <- <-.
  unfold patchRow in Hrow. destruct (has rm i).
  { injection Hrow as <- <-.
    destruct (IH Hcl _ _ _ _ Hsub Hrest) as (Hmono & sel & Hsel & Hrows).
    split; [done|]. exists sel. split; [by apply sublist_cons|].
    intros hf Hhf. rewrite filter_cons_False by done. by apply Hrows. }
  destruct ((collect D).2 !! Z.of_nat i) as [P|] eqn:Hup.
  - destruct (alloc _ h) as [l h1'] eqn:Ha. injection Hrow as <- <-.
    pose proof (alloc_spec _ _ _ _ Ha) as [Hfresh Hh1].
    pose proof (alloc_subseteq _ _ _ _ Ha) as Hh.
    destruct (IH Hcl _ _ _ _ (transitivity Hsub Hh) Hrest)
      as (Hmono & sel & Hsel & Hrows).
    split; [by transitivity h1'|].
    exists ((j, y) :: sel). split; [by apply sublist_skip|].
    intros hf Hhf. rewrite filter_cons_True by done.
    constructor; [|by apply Hrows].
    right. destruct (collect_update _ _ _ Hup) as (c & Hc & Hac & _ & HP).
    exists l, c. split; [done|]. split.
    { destruct (h0 !! l) as [o|] eqn:Ho; [|done].
      by rewrite (lookup_weaken _ _ _ _ Ho Hsub) in Hfresh. }
    split; [done|]. split; [done|].
    apply (lookup_weaken h1'); [|by transitivity h2].
    rewrite Hh1, lookup_insert_eq. subst P.
    rewrite (closed_ownProps h0 h (newData c)) by (done || by apply HD).
    by rewrite (closed_ownProps h0 h y).
  - injection Hrow as <- <-.
    destruct (IH Hcl _ _ _ _ Hsub Hrest) as (Hmono & sel & Hsel & Hrows).
    split; [done|]. destruct (Boolean y) eqn:Hb.
    + exists ((j, y) :: sel). split; [by apply sublist_skip|].
      intros hf Hhf. rewrite filter_cons_True by done.
      constructor; [by left|by apply Hrows].
    + exists sel. split; [by apply sublist_cons|].
      intros hf Hhf. rewrite filter_cons_False by (by rewrite Hb).
      by apply Hrows.
Qed.

End Trace.

Section Run.

Implicit Types (h : gmap positive object) (xs : list value).

(** The stages of a run: the store grows from stage to stage, the
    returned array is new and holds the truthy rows of the mapped array. *)
Lemma applyCorrections_run xs D h :
  ∃ h2 mapped h3,
    h ⊆ h2 ∧
    map_from (patchRow (collect D).1 (collect D).2) 0
      (filter_from (λ _ index, negb (has (collect D).1 index)) 0 xs) h2
      = (mapped, h3) ∧
    h3 ⊆ final_store h xs D ∧
    h2 ⊆ final_store h xs D ∧
    h !! (applyCorrections xs D h).1 = None ∧
    final_store h xs D !! (applyCorrections xs D h).1
      = Some (OArray (filter (λ v, Boolean v = true) mapped)).
Proof.
  unfold final_store, applyCorrections, bind.
  destruct (alloc (OArray xs) h) as [l0 h1] eqn:A0.
  destruct (collect D) as [rm up]. cbn [fst snd].
  set (kept := filter_from _ 0 xs).
  destruct (alloc (OArray kept) h1) as [l1 h2] eqn:A1.
  destruct (map_from (patchRow rm up) 0 kept h2) as [mapped h3] eqn:Hm.
  destruct (alloc (OArray mapped) h3) as [l2 h4] eqn:A2.
  destruct (alloc _ h4) as [l3 h5] eqn:A3. cbn [fst snd].
  pose proof (alloc_subseteq _ _ _ _ A0) as S0.
  pose proof (alloc_subseteq _ _ _ _ A1) as S1.
  pose proof (alloc_subseteq _ _ _ _ A2) as S2.
  pose proof (alloc_subseteq _ _ _ _ A3) as S3.
  assert (h2 ⊆ h3) as S23.
  { destruct (filter_from_trace (λ _ index, negb (has rm index)) xs 0)
      as (kp & Hkp & _).
    fold kept in Hkp. rewrite <-Hkp in Hm.
    assert (∀ kp i hs ys hs',
      map_from (patchRow rm up) i kp hs = (ys, hs') → hs ⊆ hs') as Hgrow.
    { clear. induction kp as [|y kp IH]; intros i hs ys hs' Hrun.
      { by injection Hrun as <- <-. }
      rewrite map_from_cons in Hrun.
      destruct (patchRow rm up y i hs) as [r hs1] eqn:Hrow.
      destruct (map_from _ (S i) kp hs1) as [ys' hs2] eqn:Hrest.
      injection Hrun as <- <-.
      transitivity hs1; [|by eapply IH].
      unfold patchRow in Hrow. destruct (has rm i).
      { by injection Hrow as <- <-. }
      destruct (up !! Z.of_nat i).
      - destruct (alloc _ hs) as [l hs1'] eqn:Ha. injection Hrow as <- <-.
        by eapply alloc_subseteq.
      - by injection Hrow as <- <-. }
    by eapply Hgrow. }
  exists h2, mapped, h3. split; [by transitivity h1|]. split; [done|].
  split; [by transitivity h4|]. split.
  { transitivity h3; [done|]. by transitivity h4. }
  split.
  - pose proof (alloc_spec _ _ _ _ A3) as [Hfresh _].
    destruct (h !! l3) as [o|] eqn:Ho; [|done].
    assert (h ⊆ h4) as Hsub.
    { transitivity h1; [done|]. transitivity h2; [done|]. by transitivity h3. }
    by rewrite (lookup_weaken _ _ _ _ Ho Hsub) in Hfresh.
  - by apply (alloc_lookup _ _ _ _ A3).
Qed.

Lemma corrected_rows xs D h mapped :
  final_store h xs D !! (applyCorrections xs D h).1
    = Some (OArray mapped) →
  corrected h xs D = mapped.
Proof.
  unfold corrected, rows_of, final_store. by intros ->.
Qed.

(** Every row of the corrected dataset is derived from a pending row at a
    position outside the skip set, and these positions increase. *)
Lemma corrected_trace xs D h :
  Forall (λ v, closed h v = true) xs →
  (∀ c, c ∈ D → closed h (newData c) = true) →
  ∃ js, StronglySorted lt js ∧
        Forall (λ j, has (collect D).1 j = false) js ∧
        Forall2 (λ j r, ∃ y, xs !! j = Some y ∧
                             derived h (final_store h xs D) D y r)
                js (corrected h xs D).
Proof.
  intros Hxs HD.
  destruct (applyCorrections_run xs D h)
    as (h2 & mapped & h3 & S2 & Hm & S3 & _ & _ & Hfinal).
  rewrite (corrected_rows _ _ _ _ Hfinal).
  destruct (filter_from_trace (λ _ index, negb (has (collect D).1 index)) xs 0)
    as (kp & Hkp & Hsorted & Hall).
  rewrite <-Hkp in Hm.
  assert (Forall (λ v, closed h v = true) kp.*2) as Hcl.
  { apply Forall_fmap, Forall_forall. intros [j y] Hjy.
    rewrite Forall_forall in Hall. destruct (Hall _ Hjy) as (_ & Hy & _).
    simpl in *. rewrite Forall_forall in Hxs. apply Hxs.
    by eapply list_elem_of_lookup_2. }
  destruct (map_from_trace _ D h kp HD Hcl _ _ _ _ S2 Hm)
    as (_ & sel & Hsel & Hrows).
  exists sel.*1. split.
  { eapply StronglySorted_lt_sublist; [|exact Hsorted]. by apply fmap_sublist. }
  assert (Forall (λ jy : nat * value,
            xs !! jy.1 = Some jy.2 ∧ has (collect D).1 jy.1 = false) sel)
    as Hsel_all.
  { apply Forall_forall. intros [j y] Hjy.
    rewrite Forall_forall in Hall.
    destruct (Hall (j, y)) as (_ & Hy & Hp).
    { by eapply elem_of_sublist. }
    simpl in *. rewrite Nat.sub_0_r in Hy. split; [done|].
    by apply negb_true_iff. }
  split.
  { apply Forall_fmap. eapply Forall_impl; [exact Hsel_all|].
    by intros [j y] [_ ?]. }
  apply Forall2_fmap_l.
  specialize (Hrows _ S3).
  clear -Hrows Hsel_all. induction Hrows as [|[j y] r sel' rs Hd Hrest IH].
  { constructor. }
  apply Forall_cons in Hsel_all as [[Hy _] Hall']. simpl in Hy.
  constructor; [|by apply IH]. exists y. done.
Qed.

Lemma corrected_truthy xs D h :
  Forall (λ r, Boolean r = true) (corrected h xs D).
Proof.
  destruct (applyCorrections_run xs D h)
    as (h2 & mapped & h3 & _ & _ & _ & _ & _ & Hfinal).
  rewrite (corrected_rows _ _ _ _ Hfinal).
  apply Forall_forall. by intros r [? _]%list_elem_of_filter.
Qed.

End Run.

Section Inputs.

Implicit Types (h : gmap positive object) (xs : list value).

Lemma inputs_closed_spec h xs D :
  inputs_closed h xs D = true →
  Forall (λ v, closed h v = true) xs ∧
  (∀ c, c ∈ D → closed h (newData c) = true).
Proof.
  unfold inputs_closed. intros [Hxs HD]%andb_true_iff. split.
  - apply Forall_forall. intros v Hv%list_elem_of_In.
    by eapply forallb_forall in Hxs.
  - intros c Hc%list_elem_of_In.
    by apply (proj1 (forallb_forall _ _) HD c).
Qed.

Lemma inputs_closed_without h xs D1 c D2 :
  inputs_closed h xs (D1 ++ c :: D2) = true →
  inputs_closed h xs (D1 ++ D2) = true.
Proof.
  unfold inputs_closed. rewrite !forallb_app. simpl.
  intros [Hxs [H1 [_ H2]%andb_true_iff]%andb_true_iff]%andb_true_iff.
  by rewrite Hxs, H1, H2.
Qed.

Lemma has_empty k : has ∅ k = false.
Proof. unfold has. by apply bool_decide_eq_false. Qed.

Lemma filter_from_all (p : value → nat → bool) xs i :
  (∀ x k, p x k = true) → filter_from p i xs = xs.
Proof.
  intros Hp. revert i. induction xs as [|x xs IH]; intros i; [done|].
  simpl. by rewrite Hp, IH.
Qed.

Lemma map_from_no_directive xs i h :
  map_from (patchRow ∅ ∅) i xs h = (xs, h).
Proof.
  revert i. induction xs as [|x xs IH]; intros i; [done|].
  rewrite map_from_cons. unfold patchRow at 1.
  rewrite has_empty, lookup_empty. unfold ret. by rewrite IH.
Qed.

(** Without directives the corrected dataset is the pending one filtered
    by truthiness. *)
Lemma corrected_no_directive h xs :
  corrected h xs [] = filter (λ v, Boolean v = true) xs.
Proof.
  destruct (applyCorrections_run xs [] h)
    as (h2 & mapped & h3 & _ & Hm & _ & _ & _ & Hfinal).
  rewrite (corrected_rows _ _ _ _ Hfinal).
  change (collect []) with ((∅, ∅) : gset Z * gmap Z value) in Hm.
  cbn [fst snd] in Hm.
  rewrite filter_from_all in Hm by (intros; by rewrite has_empty).
  rewrite map_from_no_directive in Hm. by injection Hm as <- _.
Qed.

End Inputs.

(** ** The claims on the resolver *)

(** C1 (the code departs from it): three trips and the single directive
    [{ tripIndex: 0, action: "skip" }].  One index is skipped, so two rows
    should remain; the run returns the last trip only, because the map
    callback tests the skip set against the positions of the already
    filtered array and drops the row that moved to position 0. *)
Theorem skip_removes_a_second_row :
  size (in_range_skips 3 [Sample.skip 0]) = 1 ∧
  corrected Sample.h4 [Sample.a; Sample.b; Sample.c] [Sample.skip 0] = [Sample.c] ∧
  length (corrected Sample.h4 [Sample.a; Sample.b; Sample.c] [Sample.skip 0])
    ≠ 3 - size (in_range_skips 3 [Sample.skip 0]).
Proof. vm_compute. split; [done|]. split; [done|]. lia. Qed.

(** C2 (the code departs from it): four trips, trip 0 skipped and a patch
    [{ distance: 42 }] directed at trip 2.  The trip that was at position 2
    comes out as it was, distance 60, and the patch lands on the trip that
    was at position 3: the update map is looked up with positions of the
    filtered array. *)
Theorem patch_lands_on_the_next_row :
  let D := [Sample.skip 0; Sample.correct 2 Sample.patch42] in
  let pending := [Sample.a; Sample.b; Sample.c; Sample.d] in
  corrected Sample.h4 pending D = [Sample.c; VRef 8] ∧
  ownProps (final_store Sample.h4 pending D) Sample.c !! "distance"
    = Some (VNum 60) ∧
  final_store Sample.h4 pending D !! 8%positive = Some (Sample.trip 200 230 42) ∧
  Sample.h4 !! 4%positive = Some (Sample.trip 200 230 30).
Proof. vm_compute. done. Qed.

(** C3: when the directive list holds a skip and a correct for the same
    position [i] of the pending dataset, the correct directive has no
    effect, the run being the run of the list without it, and every row of
    the result is derived, by the remaining directives, from a pending row
    at a position other than [i]. *)
Theorem skip_wins_over_correct
    (h : gmap positive object) (pending : list value)
    (D1 D2 : list directive) (c s : directive) (i : nat) :
  i < length pending →
  action c = "correct" → tripIndex c = Z.of_nat i →
  s ∈ D1 ++ D2 → action s = "skip" → tripIndex s = Z.of_nat i →
  inputs_closed h pending (D1 ++ c :: D2) = true →
  applyCorrections pending (D1 ++ c :: D2) h
    = applyCorrections pending (D1 ++ D2) h ∧
  ∃ js, (i ∉ js) ∧ StronglySorted lt js ∧
        Forall2 (λ j r, ∃ y, pending !! j = Some y ∧
                   derived h (final_store h pending (D1 ++ c :: D2)) (D1 ++ D2) y r)
                js (corrected h pending (D1 ++ c :: D2)).
Proof.
  intros Hi Hc Hci Hs Hsa Hsi Hcl.
  assert (applyCorrections pending (D1 ++ c :: D2) h
          = applyCorrections pending (D1 ++ D2) h) as Heq.
  { apply applyCorrections_ext. intros k Hk.
    rewrite (collect_without_correct D1 c D2 Hc). split; [done|].
    intros Hnot. destruct (decide (Z.of_nat k = tripIndex c)) as [Hkc|Hkc].
    - assert (has (collect (D1 ++ D2)).1 k = true) as Hin.
      { apply has_spec. rewrite Hkc, Hci, <-Hsi. by apply collect_skip. }
      congruence.
    - by destruct (collect_without (tripIndex c) D1 c D2 eq_refl _ Hkc). }
  split; [done|].
  unfold corrected, final_store. rewrite Heq.
  apply inputs_closed_without, inputs_closed_spec in Hcl as [Hxs HD].
  destruct (corrected_trace pending (D1 ++ D2) h Hxs HD)
    as (js & Hsorted & Hkept & Hrows).
  exists js. split; [|done].
  intros Hin. rewrite Forall_forall in Hkept. specialize (Hkept _ Hin).
  assert (has (collect (D1 ++ D2)).1 i = true) as Hskip.
  { apply has_spec. rewrite <-Hsi. by apply collect_skip. }
  congruence.
Qed.

Lemma skip_wins_over_correct_witness :
  let pending := [Sample.a; Sample.b; Sample.c] in
  let D1 := [Sample.correct 0 Sample.patch42] in
  let D2 := [Sample.skip 1] in
  let c := Sample.correct 1 Sample.patch42 in
  (1 < length pending ∧ action c = "correct" ∧ tripIndex c = Z.of_nat 1 ∧
   Sample.skip 1 ∈ D1 ++ D2 ∧
   inputs_closed Sample.h4 pending (D1 ++ c :: D2) = true) ∧
  applyCorrections pending (D1 ++ c :: D2) Sample.h4
    = applyCorrections pending (D1 ++ D2) Sample.h4 ∧
  ∃ js, (1 ∉ js) ∧ StronglySorted lt js ∧
        Forall2 (λ j r, ∃ y, pending !! j = Some y ∧
                   derived Sample.h4
                     (final_store Sample.h4 pending (D1 ++ c :: D2)) (D1 ++ D2) y r)
                js (corrected Sample.h4 pending (D1 ++ c :: D2)).
Proof.
  assert (Sample.skip 1 ∈
          [Sample.correct 0 Sample.patch42] ++ [Sample.skip 1]) as Hin.
  { apply list_elem_of_In. simpl. right. left. reflexivity. }
  split.
  { split; [simpl; lia|]. split; [reflexivity|]. split; [reflexivity|].
    split; [exact Hin|]. vm_compute. reflexivity. }
  apply (skip_wins_over_correct Sample.h4 [Sample.a; Sample.b; Sample.c]
           [Sample.correct 0 Sample.patch42] [Sample.skip 1]
           (Sample.correct 1 Sample.patch42) (Sample.skip 1) 1).
  - simpl. lia.
  - reflexivity.
  - reflexivity.
  - exact Hin.
  - reflexivity.
  - reflexivity.
  - vm_compute. reflexivity.
Defined.

(** C4: the rows of the corrected dataset are derived, one for one and in
    order, from pending rows at strictly increasing positions, each being
    the pending row itself or a patched copy of it, and no entry of the
    result is a [null] placeholder or another falsy value. *)
Theorem order_preserved
    (h : gmap positive object) (pending : list value) (D : list directive) :
  inputs_closed h pending D = true →
  Forall (λ r, Boolean r = true) (corrected h pending D) ∧
  ∃ js, StronglySorted lt js ∧
        Forall2 (λ j r, ∃ y, pending !! j = Some y ∧
                   derived h (final_store h pending D) D y r)
                js (corrected h pending D).
Proof.
  intros [Hxs HD]%inputs_closed_spec. split; [apply corrected_truthy|].
  destruct (corrected_trace pending D h Hxs HD) as (js & Hsorted & _ & Hrows).
  by exists js.
Qed.

Lemma order_preserved_witness :
  let pending := [Sample.a; Sample.b; Sample.c; Sample.d] in
  let D := [Sample.skip 3; Sample.correct 1 Sample.patch42] in
  inputs_closed Sample.h4 pending D = true ∧
  Forall (λ r, Boolean r = true) (corrected Sample.h4 pending D) ∧
  ∃ js, StronglySorted lt js ∧
        Forall2 (λ j r, ∃ y, pending !! j = Some y ∧
                   derived Sample.h4 (final_store Sample.h4 pending D) D y r)
                js (corrected Sample.h4 pending D).
Proof.
  split; [vm_compute; reflexivity|].
  apply (order_preserved Sample.h4 [Sample.a; Sample.b; Sample.c; Sample.d]
           [Sample.skip 3; Sample.correct 1 Sample.patch42]).
  vm_compute. reflexivity.
Defined.

(** C9: with the empty directive list the corrected dataset is, in order,
    the truthy entries of the pending dataset: the dataset itself when all
    its rows are objects, while an entry that is [null], [undefined] or
    another falsy value is left out though no directive names it. *)
Theorem empty_directives_keep_truthy_rows
    (h : gmap positive object) (pending : list value) :
  corrected h pending [] = filter (λ v, Boolean v = true) pending ∧
  (Forall (λ v, ∃ l, v = VRef l) pending → corrected h pending [] = pending) ∧
  (∀ v, v ∈ pending → Boolean v = false → v ∉ corrected h pending []).
Proof.
  rewrite corrected_no_directive. split; [done|]. split.
  - induction 1 as [|v vs [l ->] _ IH]; [done|].
    rewrite filter_cons_True by done. by rewrite IH.
  - intros v _ Hv [Hb _]%list_elem_of_filter. congruence.
Qed.

Lemma empty_directives_keep_truthy_rows_witness :
  corrected Sample.h4 [Sample.a; VNull; Sample.b; VUndefined; VNum 0] []
    = [Sample.a; Sample.b] ∧
  corrected Sample.h4 [Sample.a; Sample.b] [] = [Sample.a; Sample.b] ∧
  VNull ∉ corrected Sample.h4 [Sample.a; VNull; Sample.b; VUndefined; VNum 0] [].
Proof.
  destruct (empty_directives_keep_truthy_rows Sample.h4
              [Sample.a; VNull; Sample.b; VUndefined; VNum 0]) as (H1 & _ & H3).
  destruct (empty_directives_keep_truthy_rows Sample.h4 [Sample.a; Sample.b])
    as (_ & H2 & _).
  split; [exact H1|]. split.
  - apply H2. repeat constructor; eexists; reflexivity.
  - apply H3; [|reflexivity]. apply list_elem_of_In. simpl. right. left. reflexivity.
Defined.

(** C10: a run changes no object of the store it starts from, so the
    pending array and every row object are as before; the array it returns
    is a new one, and each of its rows is either a value of the pending
    dataset or a new object holding the fields of a pending row overridden
    by those of a patch. *)
Theorem resolver_does_not_mutate
    (h : gmap positive object) (pending : list value) (D : list directive) :
  inputs_closed h pending D = true →
  (∀ l o, h !! l = Some o → final_store h pending D !! l = Some o) ∧
  h !! (applyCorrections pending D h).1 = None ∧
  final_store h pending D !! (applyCorrections pending D h).1
    = Some (OArray (corrected h pending D)) ∧
  Forall (λ r, r ∈ pending ∨
               ∃ y, y ∈ pending ∧ patched_from h (final_store h pending D) D y r)
         (corrected h pending D).
Proof.
  intros [Hxs HD]%inputs_closed_spec.
  destruct (applyCorrections_run pending D h)
    as (h2 & mapped & h3 & S2 & _ & _ & S2f & Hnew & Hfinal).
  split.
  { intros l o Ho. apply (lookup_weaken h); [done|]. by transitivity h2. }
  split; [done|]. split.
  { by rewrite (corrected_rows _ _ _ _ Hfinal). }
  destruct (corrected_trace pending D h Hxs HD) as (js & _ & _ & Hrows).
  induction Hrows as [|j r js' rs (y & Hy & [->|Hp]) _ IH]; constructor; try done.
  - left. by eapply list_elem_of_lookup_2.
  - right. exists y. split; [by eapply list_elem_of_lookup_2|done].
Qed.

Lemma resolver_does_not_mutate_witness :
  let pending := [Sample.a; Sample.b; Sample.c] in
  let D := [Sample.correct 0 Sample.patch42; Sample.skip 2] in
  inputs_closed Sample.h4 pending D = true ∧
  (∀ l o, Sample.h4 !! l = Some o →
          final_store Sample.h4 pending D !! l = Some o) ∧
  Sample.h4 !! (applyCorrections pending D Sample.h4).1 = None ∧
  final_store Sample.h4 pending D !! (applyCorrections pending D Sample.h4).1
    = Some (OArray (corrected Sample.h4 pending D)) ∧
  Forall (λ r, r ∈ pending ∨
               ∃ y, y ∈ pending ∧
                    patched_from Sample.h4 (final_store Sample.h4 pending D) D y r)
         (corrected Sample.h4 pending D).
Proof.
  split; [vm_compute; reflexivity|].
  apply (resolver_does_not_mutate Sample.h4 [Sample.a; Sample.b; Sample.c]
           [Sample.correct 0 Sample.patch42; Sample.skip 2]).
  vm_compute. reflexivity.
Defined.

(** ** The claims on the session *)

(** C6: from a session that awaits correction, the handler returns, the
    accepted dataset is the array the resolver produced, the pending dataset
    is [null], the anomaly list is an empty array and the modal is closed:
    the session is clean and loaded. *)
Theorem resolve_transition
    (st : session) (D : list directive) (pending : list value) :
  awaiting_correction st = true →
  pending_rows st = Some pending →
  (handleAnomalyCorrection D st).1 = Returned ∧
  journeyData (handleAnomalyCorrection D st).2
    = VRef (applyCorrections pending D (store st)).1 ∧
  iterate (store (handleAnomalyCorrection D st).2)
          (journeyData (handleAnomalyCorrection D st).2)
    = Some (corrected (store st) pending D) ∧
  pendingJourneyData (handleAnomalyCorrection D st).2 = VNull ∧
  anomaly_rows (handleAnomalyCorrection D st).2 = Some [] ∧
  anomalyModalOpened (handleAnomalyCorrection D st).2 = false ∧
  clean_loaded (handleAnomalyCorrection D st).2 = true.
Proof.
  intros _ Hp. unfold pending_rows in Hp. unfold handleAnomalyCorrection.
  rewrite Hp.
  destruct (applyCorrections_run pending D (store st))
    as (_ & mapped & _ & _ & _ & _ & _ & _ & Hfinal).
  pose proof (corrected_rows _ _ _ _ Hfinal) as Hrows.
  unfold final_store in Hfinal.
  destruct (applyCorrections pending D (store st)) as [l h1] eqn:Hrun.
  cbn [fst snd] in Hfinal.
  destruct (alloc (OArray []) h1) as [l' h2] eqn:Ha.
  pose proof (alloc_subseteq _ _ _ _ Ha) as Hsub.
  pose proof (alloc_lookup _ _ _ _ Ha) as Hl'.
  pose proof (lookup_weaken _ _ _ _ Hfinal Hsub) as Hl.
  unfold clean_loaded, anomaly_rows. cbn [fst snd store journeyData anomalies
    pendingJourneyData anomalyModalOpened iterate].
  rewrite Hl, Hl', Hrows. repeat split; try done.
Qed.

Lemma resolve_transition_witness :
  awaiting_correction Sample.awaiting = true ∧
  pending_rows Sample.awaiting = Some [Sample.a; Sample.b] ∧
  (handleAnomalyCorrection [Sample.skip 1] Sample.awaiting).1 = Returned ∧
  journeyData (handleAnomalyCorrection [Sample.skip 1] Sample.awaiting).2
    = VRef (applyCorrections [Sample.a; Sample.b] [Sample.skip 1]
              (store Sample.awaiting)).1 ∧
  iterate (store (handleAnomalyCorrection [Sample.skip 1] Sample.awaiting).2)
          (journeyData (handleAnomalyCorrection [Sample.skip 1] Sample.awaiting).2)
    = Some (corrected (store Sample.awaiting) [Sample.a; Sample.b] [Sample.skip 1]) ∧
  pendingJourneyData (handleAnomalyCorrection [Sample.skip 1] Sample.awaiting).2
    = VNull ∧
  anomaly_rows (handleAnomalyCorrection [Sample.skip 1] Sample.awaiting).2
    = Some [] ∧
  anomalyModalOpened (handleAnomalyCorrection [Sample.skip 1] Sample.awaiting).2
    = false ∧
  clean_loaded (handleAnomalyCorrection [Sample.skip 1] Sample.awaiting).2 = true.
Proof.
  split; [vm_compute; reflexivity|]. split; [vm_compute; reflexivity|].
  apply (resolve_transition Sample.awaiting [Sample.skip 1] [Sample.a; Sample.b]).
  - vm_compute. reflexivity.
  - vm_compute. reflexivity.
Defined.

(** C7 as stated fails: closing the modal on a session that awaits
    correction leaves the pending dataset and the anomaly list in place. *)
Lemma cancel_keeps_pending_data :
  awaiting_correction Sample.awaiting = true ∧
  pendingJourneyData (closeAnomalyModal Sample.awaiting) ≠ VNull ∧
  anomaly_rows (closeAnomalyModal Sample.awaiting) ≠ Some [] ∧
  awaiting_correction (closeAnomalyModal Sample.awaiting) = true.
Proof. vm_compute. repeat split; congruence. Qed.

(** C7, amended: closing the correction workflow without resolving only
    closes the modal; the accepted dataset, the pending dataset, the anomaly
    list and the store keep their values, as do the other cells. *)
Theorem cancel_only_closes_modal (st : session) :
  anomalyModalOpened (closeAnomalyModal st) = false ∧
  journeyData (closeAnomalyModal st) = journeyData st ∧
  pendingJourneyData (closeAnomalyModal st) = pendingJourneyData st ∧
  anomalies (closeAnomalyModal st) = anomalies st ∧
  store (closeAnomalyModal st) = store st ∧
  pending_rows (closeAnomalyModal st) = pending_rows st ∧
  anomaly_rows (closeAnomalyModal st) = anomaly_rows st ∧
  closeAnomalyModal st =
    {| store := store st;
       journeyData := journeyData st;
       vehicleStatusData := vehicleStatusData st;
       chargingData := chargingData st;
       activeTab := activeTab st;
       uploadModalOpened := uploadModalOpened st;
       costCalculatorSignal := costCalculatorSignal st;
       anomalies := anomalies st;
       pendingJourneyData := pendingJourneyData st;
       anomalyModalOpened := false |}.
Proof. by repeat split. Qed.

(** C8: with no pending dataset ([pendingJourneyData] is [null]) the
    handler raises a [TypeError] at its first statement and the session,
    accepted dataset, pending dataset and anomaly list included, is the one
    it was called in. *)
Theorem resolve_without_pending (st : session) (D : list directive) :
  pendingJourneyData st = VNull →
  handleAnomalyCorrection D st = (Threw "TypeError", st).
Proof.
  intros H. unfold handleAnomalyCorrection. by rewrite H.
Qed.

Lemma resolve_without_pending_witness :
  pendingJourneyData Sample.initial = VNull ∧
  handleAnomalyCorrection [Sample.skip 0] Sample.initial
    = (Threw "TypeError", Sample.initial).
Proof.
  split; [reflexivity|].
  apply (resolve_without_pending Sample.initial [Sample.skip 0]).
  reflexivity.
Defined.

(** ** How many rows a run returns *)

Section Counting.

Implicit Types (h : gmap positive object) (xs : list value) (rm : gset Z).

(** The skip indices among the [n] positions that start at [i]. *)
Lemma skips_in_range_cons rm (i n : nat) :
  size (filter (λ z, (Z.of_nat i ≤ z < Z.of_nat i + Z.of_nat (S n))%Z) rm)
  = (if has rm i then 1 else 0)
    + size (filter (λ z, (Z.of_nat (S i) ≤ z < Z.of_nat (S i) + Z.of_nat n)%Z) rm).
Proof.
  assert (filter (λ z, (Z.of_nat i ≤ z < Z.of_nat i + Z.of_nat (S n))%Z) rm
          = filter (λ z, z = Z.of_nat i) rm
            ∪ filter (λ z, (Z.of_nat (S i) ≤ z < Z.of_nat (S i) + Z.of_nat n)%Z) rm)
    as ->.
  { apply set_eq. intros z. rewrite elem_of_union, !elem_of_filter.
    split; [intros [Hz Hin]|intros [[Hz Hin]|[Hz Hin]]].
    - destruct (decide (z = Z.of_nat i)); [by left|right]. split; [lia|done].
    - split; [lia|done].
    - split; [lia|done]. }
  rewrite size_union.
  2:{ intros z [Hz _]%elem_of_filter [Hz' _]%elem_of_filter. lia. }
  f_equal. unfold has. case_bool_decide as Hin.
  - assert (filter (λ z, z = Z.of_nat i) rm = {[ Z.of_nat i ]}) as ->.
    { apply set_eq. intros z. rewrite elem_of_filter, elem_of_singleton.
      split; [by intros [-> _]|by intros ->]. }
    by rewrite size_singleton.
  - assert (filter (λ z, z = Z.of_nat i) rm = ∅) as ->.
    { apply set_eq. intros z. rewrite elem_of_filter.
      split; [intros [-> ?]; done|set_solver]. }
    by rewrite size_empty.
Qed.

(** The first filter keeps as many rows as there are positions outside the
    skip set. *)
Lemma filter_from_count rm xs (i : nat) :
  length (filter_from (λ _ index, negb (has rm index)) i xs)
  + size (filter (λ z, (Z.of_nat i ≤ z < Z.of_nat i + Z.of_nat (length xs))%Z) rm)
  = length xs.
Proof.
  revert i. induction xs as [|x xs IH]; intros i.
  - simpl. assert (filter (λ z, (Z.of_nat i ≤ z < Z.of_nat i + Z.of_nat 0)%Z) rm = ∅)
      as ->; [|by rewrite size_empty].
    apply set_eq. intros z. rewrite elem_of_filter. split; [lia|set_solver].
  - cbn [length filter_from]. rewrite skips_in_range_cons.
    specialize (IH (S i)). destruct (has rm i); simpl; lia.
Qed.

Lemma kept_length xs D :
  length (filter_from (λ _ index, negb (has (collect D).1 index)) 0 xs)
  = length xs - size (in_range_skips (length xs) D).
Proof.
  pose proof (filter_from_count (collect D).1 xs 0) as H.
  assert (in_range_skips (length xs) D
          = filter (λ z, (Z.of_nat 0 ≤ z < Z.of_nat 0 + Z.of_nat (length xs))%Z)
              (collect D).1) as ->; [|lia].
  unfold in_range_skips. apply set_eq. intros z. rewrite !elem_of_filter.
  split; (intros [Hz Hin]; split; [lia|done]).
Qed.

Lemma map_from_length (f : value → nat → M value) xs i h :
  length (map_from f i xs h).1 = length xs.
Proof.
  revert i h. induction xs as [|x xs IH]; intros i h; [done|].
  rewrite map_from_cons. destruct (f x i h) as [y h1].
  specialize (IH (S i) h1). destruct (map_from f (S i) xs h1) as [ys h2].
  simpl in *. by rewrite IH.
Qed.

Lemma filter_from_Forall (P : value → Prop) p xs i :
  Forall P xs → Forall P (filter_from p i xs).
Proof.
  intros H. revert i. induction H as [|x xs Hx _ IH]; intros i; simpl.
  - constructor.
  - destruct (p x i); [constructor; [done|]|]; apply IH.
Qed.

(** On object rows the final filter removes exactly the rows the map
    callback replaced by [null]. *)
Lemma map_from_truthy_count rm up xs i h :
  Forall (λ v, ∃ l, v = VRef l) xs →
  length (filter (λ v, Boolean v = true) (map_from (patchRow rm up) i xs h).1)
  = length (filter_from (λ _ index, negb (has rm index)) i xs).
Proof.
  intros H. revert i h. induction H as [|x xs [l ->] _ IH]; intros i h; [done|].
  rewrite map_from_cons. cbn [filter_from].
  destruct (patchRow rm up (VRef l) i h) as [y h1] eqn:Hrow.
  specialize (IH (S i) h1).
  destruct (map_from (patchRow rm up) (S i) xs h1) as [ys h2]. cbn [fst] in *.
  unfold patchRow in Hrow. destruct (has rm i); cbn [negb].
  { injection Hrow as <- <-. by rewrite filter_cons_False. }
  destruct (up !! Z.of_nat i).
  - destruct (alloc _ h) as [l' h'']. injection Hrow as <- <-.
    rewrite filter_cons_True by done. simpl. by rewrite IH.
  - injection Hrow as <- <-. rewrite filter_cons_True by done. simpl. by rewrite IH.
Qed.

Lemma corrected_unfold xs D h :
  corrected h xs D
  = filter (λ v, Boolean v = true)
      (map_from (patchRow (collect D).1 (collect D).2) 0
         (filter_from (λ _ index, negb (has (collect D).1 index)) 0 xs)
         (alloc (OArray (filter_from (λ _ index, negb (has (collect D).1 index)) 0 xs))
            (alloc (OArray xs) h).2).2).1.
Proof.
  unfold corrected, rows_of, applyCorrections, bind.
  destruct (alloc (OArray xs) h) as [l0 h0]. cbn [fst snd].
  destruct (collect D) as [rm up]. cbn [fst snd].
  destruct (alloc (OArray (filter_from _ 0 xs)) h0) as [l1 h1]. cbn [fst snd].
  destruct (map_from (patchRow rm up) 0 _ h1) as [mapped h3].
  destruct (alloc (OArray mapped) h3) as [l2 h4].
  destruct (alloc _ h4) as [l3 h5] eqn:A3. cbn [fst snd].
  by rewrite (alloc_lookup _ _ _ _ A3).
Qed.

End Counting.

(** ** What the map callback does, position by position *)

Section Rows.

Implicit Types (h : gmap positive object) (xs : list value).

Lemma filter_all_true (P : value → Prop) `{!∀ v, Decision (P v)} xs :
  Forall P xs → filter P xs = xs.
Proof.
  induction 1 as [|x xs Hx _ IH]; [done|].
  by rewrite filter_cons_True, IH.
Qed.

Lemma map_from_rows D h0 xs :
  (∀ c, c ∈ D → closed h0 (newData c) = true) →
  Forall (λ v, closed h0 v = true) xs →
  ∀ i h ys h',
    h0 ⊆ h →
    map_from (patchRow (collect D).1 (collect D).2) i xs h = (ys, h') →
    h ⊆ h' ∧
    ∀ hf, h' ⊆ hf →
      ∀ k y, xs !! k = Some y →
             ∃ r, ys !! k = Some r ∧ row_outcome h0 hf D (i + k) y r.
Proof.
  intros HD. induction 1 as [|x xs Hx Hxs IH]; intros i h ys h' Hsub Hrun.
  { injection Hrun as <- <-. split; [done|]. by intros hf _ k y. }
  rewrite map_from_cons in Hrun.
  destruct (patchRow (collect D).1 (collect D).2 x i h) as [r h1] eqn:Hrow.
  destruct (map_from _ (S i) xs h1) as [ys' h2] eqn:Hrest.
  injection Hrun as <- <-.
  assert (h ⊆ h1 ∧ ∀ hf, h1 ⊆ hf → row_outcome h0 hf D i x r) as [Hh1 Hout].
  { unfold patchRow in Hrow. unfold row_outcome.
    destruct (has (collect D).1 i).
    { injection Hrow as <- <-. by split. }
    destruct ((collect D).2 !! Z.of_nat i) as [P|] eqn:Hup.
    - destruct (alloc _ h) as [l h1'] eqn:Ha. injection Hrow as <- <-.
      pose proof (alloc_spec _ _ _ _ Ha) as [Hfresh Hh1].
      pose proof (alloc_subseteq _ _ _ _ Ha) as Hh.
      split; [done|]. intros hf Hhf. exists l. split; [done|]. split.
      { destruct (h0 !! l) as [o|] eqn:Ho; [|done].
        by rewrite (lookup_weaken _ _ _ _ Ho Hsub) in Hfresh. }
      apply (lookup_weaken h1'); [|done].
      rewrite Hh1, lookup_insert_eq.
      destruct (collect_update _ _ _ Hup) as (c & Hc & _ & _ & <-).
      rewrite (closed_ownProps h0 h (newData c)) by (done || by apply HD).
      by rewrite (closed_ownProps h0 h x).
    - injection Hrow as <- <-. by split. }
  destruct (IH _ _ _ _ (transitivity Hsub Hh1) Hrest) as [Hh2 Hrows].
  split; [by transitivity h1|].
  intros hf Hhf [|k] y Hy.
  - injection Hy as <-. exists r. split; [done|].
    rewrite Nat.add_0_r. apply Hout. by transitivity h2.
  - destruct (Hrows hf Hhf k y Hy) as (r' & Hr' & Hout').
    exists r'. split; [done|]. by replace (i + S k) with (S i + k) by lia.
Qed.

(** The complete behaviour of the resolver: there is a mapped array, as
    long as the kept rows, whose entry at [k] is the outcome of the callback
    for the kept row at [k] and the directives for index [k], and the
    corrected dataset is what is truthy in it. *)
Lemma corrected_by_position h xs D :
  inputs_closed h xs D = true →
  ∃ mapped,
    corrected h xs D = filter (λ v, Boolean v = true) mapped ∧
    length mapped = length (kept_rows xs D) ∧
    ∀ k y, kept_rows xs D !! k = Some y →
           ∃ r, mapped !! k = Some r ∧
                row_outcome h (final_store h xs D) D k y r.
Proof.
  intros [Hxs HD]%inputs_closed_spec.
  destruct (applyCorrections_run xs D h)
    as (h2 & mapped & h3 & S2 & Hm & S3 & _ & _ & Hfinal).
  exists mapped. split; [by apply corrected_rows|]. split.
  { pose proof (map_from_length (patchRow (collect D).1 (collect D).2)
                  (kept_rows xs D) 0 h2) as Hlen.
    unfold kept_rows in *. by rewrite Hm in Hlen. }
  assert (Forall (λ v, closed h v = true) (kept_rows xs D)) as Hkept.
  { by apply filter_from_Forall. }
  destruct (map_from_rows D h (kept_rows xs D) HD Hkept 0 h2 mapped h3 S2 Hm)
    as [_ Hrows].
  intros k y Hy. by apply (Hrows _ S3 k y Hy).
Qed.

End Rows.

(** ** Further properties of the resolver *)

(** X1: a run never returns more rows than the pending dataset has
    positions outside the skip set, whatever the rows and the directives
    are; in particular the result is empty for an empty dataset and when
    every position is skipped. *)
Theorem corrected_never_longer
    (h : gmap positive object) (pending : list value) (D : list directive) :
  length (corrected h pending D)
  ≤ length pending - size (in_range_skips (length pending) D).
Proof.
  rewrite corrected_unfold, <-kept_length.
  etransitivity; [apply length_filter|]. by rewrite map_from_length.
Qed.

(** X2: on a dataset of objects the number of rows returned is exact: the
    skip set is taken off twice, once against the positions of the pending
    dataset and once more against the positions of what is left. *)
Theorem corrected_length_on_objects
    (h : gmap positive object) (pending : list value) (D : list directive) :
  Forall (λ v, ∃ l, v = VRef l) pending →
  length (corrected h pending D)
  = length (kept_rows pending D)
    - size (in_range_skips (length (kept_rows pending D)) D) ∧
  length (kept_rows pending D)
  = length pending - size (in_range_skips (length pending) D).
Proof.
  intros Hobj. split; [|apply kept_length].
  rewrite corrected_unfold, map_from_truthy_count.
  - apply kept_length.
  - by apply filter_from_Forall.
Qed.

Lemma corrected_length_on_objects_witness :
  Forall (λ v, ∃ l, v = VRef l) [Sample.a; Sample.b; Sample.c; Sample.d] ∧
  length (corrected Sample.h4 [Sample.a; Sample.b; Sample.c; Sample.d]
            [Sample.skip 0; Sample.skip 2])
  = length (kept_rows [Sample.a; Sample.b; Sample.c; Sample.d]
              [Sample.skip 0; Sample.skip 2])
    - size (in_range_skips
              (length (kept_rows [Sample.a; Sample.b; Sample.c; Sample.d]
                         [Sample.skip 0; Sample.skip 2]))
              [Sample.skip 0; Sample.skip 2]) ∧
  length (kept_rows [Sample.a; Sample.b; Sample.c; Sample.d]
            [Sample.skip 0; Sample.skip 2])
  = length [Sample.a; Sample.b; Sample.c; Sample.d]
    - size (in_range_skips (length [Sample.a; Sample.b; Sample.c; Sample.d])
              [Sample.skip 0; Sample.skip 2]).
Proof.
  assert (Forall (λ v, ∃ l, v = VRef l) [Sample.a; Sample.b; Sample.c; Sample.d])
    as H by (repeat constructor; eexists; reflexivity).
  split; [exact H|].
  exact (corrected_length_on_objects Sample.h4
           [Sample.a; Sample.b; Sample.c; Sample.d]
           [Sample.skip 0; Sample.skip 2] H).
Defined.

(** X3: directives are resolved against the positions of the filtered
    array.  The corrected dataset is the truthy part of a mapped array that
    is as long as the kept rows and whose entry at [k] is: [null] when [k]
    is a skip index, the kept row at [k] when no update is entered for [k],
    and otherwise a new object with that row's fields overridden by the
    update's. *)
Theorem directives_address_kept_positions
    (h : gmap positive object) (pending : list value) (D : list directive) :
  inputs_closed h pending D = true →
  ∃ mapped,
    corrected h pending D = filter (λ v, Boolean v = true) mapped ∧
    length mapped = length (kept_rows pending D) ∧
    ∀ k y, kept_rows pending D !! k = Some y →
           ∃ r, mapped !! k = Some r ∧
                row_outcome h (final_store h pending D) D k y r.
Proof. apply corrected_by_position. Qed.

Lemma directives_address_kept_positions_witness :
  let pending := [Sample.a; Sample.b; Sample.c; Sample.d] in
  let D := [Sample.skip 0; Sample.correct 2 Sample.patch42] in
  inputs_closed Sample.h4 pending D = true ∧
  ∃ mapped,
    corrected Sample.h4 pending D = filter (λ v, Boolean v = true) mapped ∧
    length mapped = length (kept_rows pending D) ∧
    ∀ k y, kept_rows pending D !! k = Some y →
           ∃ r, mapped !! k = Some r ∧
                row_outcome Sample.h4 (final_store Sample.h4 pending D) D k y r.
Proof.
  split; [vm_compute; reflexivity|].
  apply (directives_address_kept_positions Sample.h4
           [Sample.a; Sample.b; Sample.c; Sample.d]
           [Sample.skip 0; Sample.correct 2 Sample.patch42]).
  vm_compute. reflexivity.
Defined.

(** X4: when no skip index falls inside the dataset and the rows are
    objects, every row stays at its position: the result has the length of
    the pending dataset, a row without update is the pending row itself, and
    a row with updates is a new object in which the fields of the last
    update entered for its position override its own. *)
Theorem rows_in_place_without_skips
    (h : gmap positive object) (pending : list value) (D : list directive) :
  in_range_skips (length pending) D = ∅ →
  Forall (λ v, ∃ l, v = VRef l) pending →
  inputs_closed h pending D = true →
  length (corrected h pending D) = length pending ∧
  ∀ k y, pending !! k = Some y →
    match (collect D).2 !! Z.of_nat k with
    | None => corrected h pending D !! k = Some y
    | Some P =>
        ∃ l, corrected h pending D !! k = Some (VRef l) ∧ h !! l = None ∧
             final_store h pending D !! l
             = Some (ORecord (ownProps h P ∪ ownProps h y))
    end.
Proof.
  intros Hskip Hobj Hcl.
  assert (∀ k, k < length pending → has (collect D).1 k = false) as Hhas.
  { intros k Hk. unfold has. apply bool_decide_eq_false. intros Hin.
    assert (Z.of_nat k ∈ in_range_skips (length pending) D) as Hk'.
    { unfold in_range_skips. apply elem_of_filter. split; [lia|done]. }
    rewrite Hskip in Hk'. set_solver. }
  assert (kept_rows pending D = pending) as Hkept.
  { unfold kept_rows.
    rewrite (filter_from_ext _ (λ _ _, true)).
    - by apply filter_from_all.
    - intros k _ Hk. simpl. by rewrite Hhas. }
  destruct (corrected_by_position h pending D Hcl) as (mapped & Hc & Hlen & Hrows).
  rewrite Hkept in Hlen, Hrows.
  assert (∀ k y, pending !! k = Some y →
            ∃ r, mapped !! k = Some r ∧ Boolean r = true ∧
                 match (collect D).2 !! Z.of_nat k with
                 | None => r = y
                 | Some P =>
                     ∃ l, r = VRef l ∧ h !! l = None ∧
                          final_store h pending D !! l
                          = Some (ORecord (ownProps h P ∪ ownProps h y))
                 end) as Hrows'.
  { intros k y Hy. destruct (Hrows k y Hy) as (r & Hr & Hout).
    exists r. split; [done|]. unfold row_outcome in Hout.
    rewrite Hhas in Hout by (by eapply lookup_lt_Some).
    destruct ((collect D).2 !! Z.of_nat k) as [P|].
    - destruct Hout as (l & -> & ?). split; [done|]. by exists l.
    - subst r. split; [|done].
      by destruct (Forall_lookup_1 _ _ _ _ Hobj Hy) as [l ->]. }
  assert (filter (λ v, Boolean v = true) mapped = mapped) as Hall.
  { apply filter_all_true, Forall_lookup_2. intros k r Hr.
    destruct (pending !! k) as [y|] eqn:Hy.
    - destruct (Hrows' k y Hy) as (r' & Hr' & Hb & _). congruence.
    - apply lookup_ge_None in Hy. apply lookup_lt_Some in Hr. lia. }
  rewrite Hc, Hall. split; [done|].
  intros k y Hy. destruct (Hrows' k y Hy) as (r & Hr & _ & Hout).
  destruct ((collect D).2 !! Z.of_nat k) as [P|].
  - destruct Hout as (l & -> & ? & ?). by exists l.
  - by subst r.
Qed.

Lemma rows_in_place_without_skips_witness :
  let pending := [Sample.a; Sample.b; Sample.c] in
  let D := [Sample.correct 1 Sample.a; Sample.skip 7; Sample.correct 1 Sample.patch42] in
  (in_range_skips (length pending) D = ∅ ∧
   Forall (λ v, ∃ l, v = VRef l) pending ∧
   inputs_closed Sample.h4 pending D = true) ∧
  length (corrected Sample.h4 pending D) = length pending ∧
  ∀ k y, pending !! k = Some y →
    match (collect D).2 !! Z.of_nat k with
    | None => corrected Sample.h4 pending D !! k = Some y
    | Some P =>
        ∃ l, corrected Sample.h4 pending D !! k = Some (VRef l) ∧
             Sample.h4 !! l = None ∧
             final_store Sample.h4 pending D !! l
             = Some (ORecord (ownProps Sample.h4 P ∪ ownProps Sample.h4 y))
    end.
Proof.
  assert (in_range_skips (length [Sample.a; Sample.b; Sample.c])
            [Sample.correct 1 Sample.a; Sample.skip 7;
             Sample.correct 1 Sample.patch42] = ∅) as H1
    by (vm_compute; reflexivity).
  assert (Forall (λ v, ∃ l, v = VRef l) [Sample.a; Sample.b; Sample.c]) as H2
    by (repeat constructor; eexists; reflexivity).
  assert (inputs_closed Sample.h4 [Sample.a; Sample.b; Sample.c]
            [Sample.correct 1 Sample.a; Sample.skip 7;
             Sample.correct 1 Sample.patch42] = true) as H3
    by (vm_compute; reflexivity).
  split; [by repeat split|].
  exact (rows_in_place_without_skips Sample.h4 [Sample.a; Sample.b; Sample.c]
           [Sample.correct 1 Sample.a; Sample.skip 7;
            Sample.correct 1 Sample.patch42] H1 H2 H3).
Defined.

Section DirectiveList.

Implicit Types (acc : gset Z * gmap Z value) (D : list directive).

Lemma applyCorrections_collect xs D D' h :
  collect D = collect D' → applyCorrections xs D h = applyCorrections xs D' h.
Proof. intros H. unfold applyCorrections. by rewrite H. Qed.

Lemma foldl_removed_from D acc k :
  k ∈ (foldl record_directive acc D).1 →
  k ∈ acc.1 ∨ ∃ s, s ∈ D ∧ action s = "skip" ∧ tripIndex s = k.
Proof.
  revert acc. induction D as [|d D IH]; intros acc H; [by left|].
  simpl in H. destruct (IH _ H) as [H1|(s & ? & ? & ?)].
  - unfold record_directive in H1.
    destruct (String.eqb (action d) "skip") eqn:Es; simpl in H1.
    + apply String.eqb_eq in Es.
      apply elem_of_union in H1 as [->%elem_of_singleton|H1]; [|by left].
      right. exists d. split; [left|done].
    + destruct (String.eqb (action d) "correct"); by left.
  - right. exists s. split; [by right|done].
Qed.

(** Every index of the skip set is the [tripIndex] of a skip directive. *)
Lemma collect_removed_from D k :
  k ∈ (collect D).1 → ∃ s, s ∈ D ∧ action s = "skip" ∧ tripIndex s = k.
Proof.
  intros [H|H]%foldl_removed_from; [|done]. simpl in H. set_solver.
Qed.

Lemma collect_last_correct D1 D2 D3 c1 c2 :
  action c1 = "correct" → action c2 = "correct" →
  tripIndex c1 = tripIndex c2 →
  collect (D1 ++ c1 :: D2 ++ c2 :: D3) = collect (D1 ++ D2 ++ c2 :: D3).
Proof.
  intros H1 H2 Ht. unfold collect.
  rewrite !foldl_app. cbn [foldl]. rewrite !foldl_app. cbn [foldl].
  f_equal.
  set (acc := foldl record_directive (∅, ∅) D1).
  set (A := foldl record_directive (record_directive acc c1) D2).
  set (B := foldl record_directive acc D2).
  assert (agree_off (tripIndex c1) A B) as Hoff.
  { by apply foldl_agree, record_directive_at. }
  assert (A.1 = B.1) as Hrm.
  { by apply foldl_same_removed, record_directive_correct. }
  unfold record_directive. rewrite H2. cbn [String.eqb]. simpl.
  f_equal; [done|].
  apply map_eq. intros k. destruct (decide (tripIndex c2 = k)) as [<-|Hk].
  - by rewrite !lookup_insert_eq.
  - rewrite !lookup_insert_ne by done. apply Hoff. congruence.
Qed.

Lemma record_directive_other acc d :
  action d ≠ "skip" → action d ≠ "correct" → record_directive acc d = acc.
Proof.
  intros Hs Hc. unfold record_directive.
  apply String.eqb_neq in Hs, Hc. by rewrite Hs, Hc.
Qed.

End DirectiveList.

(** X5: skipping works as intended when every directive names a position
    at or beyond the number of rows that remain (or a negative one), as when
    only trailing rows are skipped: the result is the truthy part of the
    pending rows at the positions that are not skipped. *)
Theorem trailing_directives_skip_exactly
    (h : gmap positive object) (pending : list value) (D : list directive) :
  forallb (λ d, (tripIndex d <? 0)%Z
                || (Z.of_nat (length pending
                              - size (in_range_skips (length pending) D))
                    <=? tripIndex d)%Z) D = true →
  corrected h pending D = filter (λ v, Boolean v = true) (kept_rows pending D).
Proof.
  intros Hall.
  assert (∀ d, d ∈ D →
            (tripIndex d < 0 ∨ Z.of_nat (length (kept_rows pending D)) ≤ tripIndex d)%Z)
    as Hd.
  { intros d Hin%list_elem_of_In.
    pose proof (proj1 (forallb_forall _ _) Hall d Hin) as H.
    unfold kept_rows. rewrite kept_length.
    apply orb_true_iff in H as [H%Z.ltb_lt|H%Z.leb_le]; [by left|by right]. }
  rewrite corrected_unfold. fold (kept_rows pending D).
  rewrite (map_from_ext _ (patchRow ∅ ∅)); [by rewrite map_from_no_directive|].
  intros k item hk Hk. simpl. unfold patchRow.
  rewrite has_empty, lookup_empty.
  assert (has (collect D).1 k = false) as ->.
  { unfold has. apply bool_decide_eq_false.
    intros (s & Hs & _ & Hk')%collect_removed_from.
    destruct (Hd s Hs); lia. }
  destruct ((collect D).2 !! Z.of_nat k) as [P|] eqn:Hup; [|done].
  destruct (collect_update _ _ _ Hup) as (c & Hc & _ & Hk' & _).
  destruct (Hd c Hc); lia.
Qed.

Lemma trailing_directives_skip_exactly_witness :
  forallb (λ d, (tripIndex d <? 0)%Z
                || (Z.of_nat (length [Sample.a; Sample.b; Sample.c]
                              - size (in_range_skips
                                        (length [Sample.a; Sample.b; Sample.c])
                                        [Sample.skip 2; Sample.skip 1]))
                    <=? tripIndex d)%Z) [Sample.skip 2; Sample.skip 1] = true ∧
  corrected Sample.h4 [Sample.a; Sample.b; Sample.c] [Sample.skip 2; Sample.skip 1]
  = filter (λ v, Boolean v = true)
      (kept_rows [Sample.a; Sample.b; Sample.c] [Sample.skip 2; Sample.skip 1]).
Proof.
  split; [vm_compute; reflexivity|].
  apply (trailing_directives_skip_exactly Sample.h4
           [Sample.a; Sample.b; Sample.c] [Sample.skip 2; Sample.skip 1]).
  vm_compute. reflexivity.
Defined.

(** X6: of two correct directives for the same index the later one wins:
    the earlier can be taken out of the list without changing the run. *)
Theorem last_correct_wins
    (h : gmap positive object) (pending : list value)
    (D1 D2 D3 : list directive) (c1 c2 : directive) :
  action c1 = "correct" → action c2 = "correct" →
  tripIndex c1 = tripIndex c2 →
  applyCorrections pending (D1 ++ c1 :: D2 ++ c2 :: D3) h
  = applyCorrections pending (D1 ++ D2 ++ c2 :: D3) h.
Proof.
  intros H1 H2 Ht. by apply applyCorrections_collect, collect_last_correct.
Qed.

Lemma last_correct_wins_witness :
  (action (Sample.correct 1 Sample.a) = "correct" ∧
   action (Sample.correct 1 Sample.patch42) = "correct" ∧
   tripIndex (Sample.correct 1 Sample.a)
   = tripIndex (Sample.correct 1 Sample.patch42)) ∧
  applyCorrections [Sample.a; Sample.b]
    ([] ++ Sample.correct 1 Sample.a
        :: [Sample.skip 5] ++ Sample.correct 1 Sample.patch42 :: []) Sample.h4
  = applyCorrections [Sample.a; Sample.b]
      ([] ++ [Sample.skip 5] ++ Sample.correct 1 Sample.patch42 :: []) Sample.h4.
Proof.
  split; [repeat split; reflexivity|].
  apply (last_correct_wins Sample.h4 [Sample.a; Sample.b] [] [Sample.skip 5] []
           (Sample.correct 1 Sample.a) (Sample.correct 1 Sample.patch42));
    reflexivity.
Defined.

(** X7: a directive whose action is neither ["skip"] nor ["correct"] is
    ignored: the run is the run of the list without it. *)
Theorem unknown_action_ignored
    (h : gmap positive object) (pending : list value)
    (D1 D2 : list directive) (d : directive) :
  action d ≠ "skip" → action d ≠ "correct" →
  applyCorrections pending (D1 ++ d :: D2) h
  = applyCorrections pending (D1 ++ D2) h.
Proof.
  intros Hs Hc. apply applyCorrections_collect. unfold collect.
  rewrite !foldl_app. cbn [foldl]. by rewrite record_directive_other.
Qed.

Lemma unknown_action_ignored_witness :
  (action (Directive 0 "keep" VUndefined) ≠ "skip" ∧
   action (Directive 0 "keep" VUndefined) ≠ "correct") ∧
  applyCorrections [Sample.a; Sample.b]
    ([Sample.skip 1] ++ Directive 0 "keep" VUndefined :: []) Sample.h4
  = applyCorrections [Sample.a; Sample.b] ([Sample.skip 1] ++ []) Sample.h4.
Proof.
  assert (action (Directive 0 "keep" VUndefined) ≠ "skip") as H1
    by (simpl; discriminate).
  assert (action (Directive 0 "keep" VUndefined) ≠ "correct") as H2
    by (simpl; discriminate).
  split; [by split|].
  exact (unknown_action_ignored Sample.h4 [Sample.a; Sample.b] [Sample.skip 1] []
           (Directive 0 "keep" VUndefined) H1 H2).
Defined.

(** X8: a skip directive for an index that another skip directive of the
    list already names changes nothing: repeated skips count once. *)
Theorem repeated_skip_noop
    (h : gmap positive object) (pending : list value)
    (D1 D2 : list directive) (s s' : directive) :
  action s = "skip" →
  s' ∈ D1 ++ D2 → action s' = "skip" → tripIndex s' = tripIndex s →
  applyCorrections pending (D1 ++ s :: D2) h
  = applyCorrections pending (D1 ++ D2) h.
Proof.
  intros Hs Hin Hs' Ht. apply applyCorrections_ext. intros k Hk.
  destruct (decide (Z.of_nat k = tripIndex s)) as [Hks|Hks].
  - assert (has (collect (D1 ++ s :: D2)).1 k = true) as H1.
    { apply has_spec. rewrite Hks. apply collect_skip; [|done].
      apply elem_of_app. right. left. }
    assert (has (collect (D1 ++ D2)).1 k = true) as H2.
    { apply has_spec. rewrite Hks, <-Ht. by apply collect_skip. }
    rewrite H1, H2. split; [done|]. discriminate.
  - destruct (collect_without (tripIndex s) D1 s D2 eq_refl _ Hks) as [H1 H2].
    split; [by apply has_agree|done].
Qed.

Lemma repeated_skip_noop_witness :
  (action (Sample.skip 0) = "skip" ∧
   Sample.skip 0 ∈ [Sample.correct 1 Sample.patch42] ++ [Sample.skip 0]) ∧
  applyCorrections [Sample.a; Sample.b; Sample.c]
    ([Sample.correct 1 Sample.patch42] ++ Sample.skip 0 :: [Sample.skip 0])
    Sample.h4
  = applyCorrections [Sample.a; Sample.b; Sample.c]
      ([Sample.correct 1 Sample.patch42] ++ [Sample.skip 0]) Sample.h4.
Proof.
  assert (Sample.skip 0 ∈ [Sample.correct 1 Sample.patch42] ++ [Sample.skip 0])
    as Hin.
  { apply list_elem_of_In. simpl. right. left. reflexivity. }
  split; [split; [reflexivity|exact Hin]|].
  exact (repeated_skip_noop Sample.h4 [Sample.a; Sample.b; Sample.c]
           [Sample.correct 1 Sample.patch42] [Sample.skip 0]
           (Sample.skip 0) (Sample.skip 0) eq_refl Hin eq_refl eq_refl).
Defined.

(** ** Properties of the handlers of [App] *)

Section Handlers.

Implicit Types (h : gmap positive object) (st : session).

Lemma applyCorrections_grows xs D h : h ⊆ (applyCorrections xs D h).2.
Proof.
  destruct (applyCorrections_run xs D h)
    as (h2 & mapped & h3 & S2 & _ & _ & S2f & _ & _).
  by transitivity h2.
Qed.

Lemma iterate_weaken h h' v rows :
  h ⊆ h' → iterate h v = Some rows → iterate h' v = Some rows.
Proof.
  intros Hsub. destruct v as [| | | | |l]; try done. simpl.
  destruct (h !! l) as [o|] eqn:Ho; [|done].
  by rewrite (lookup_weaken _ _ _ _ Ho Hsub).
Qed.

(** What a call with a pending array does, cell by cell. *)
Lemma handleAnomalyCorrection_returns st D pending :
  pending_rows st = Some pending →
  ∃ h',
    (applyCorrections pending D (store st)).2 ⊆ h' ∧
    h' !! fresh (dom (applyCorrections pending D (store st)).2) = Some (OArray []) ∧
    handleAnomalyCorrection D st
    = (Returned,
       {| store := h';
          journeyData := VRef (applyCorrections pending D (store st)).1;
          vehicleStatusData := vehicleStatusData st;
          chargingData := chargingData st;
          activeTab := activeTab st;
          uploadModalOpened := uploadModalOpened st;
          costCalculatorSignal := costCalculatorSignal st;
          anomalies := VRef (fresh (dom (applyCorrections pending D (store st)).2));
          pendingJourneyData := VNull;
          anomalyModalOpened := false |}).
Proof.
  unfold pending_rows. intros Hp. unfold handleAnomalyCorrection. rewrite Hp.
  destruct (applyCorrections pending D (store st)) as [l h1]. cbn [fst snd].
  destruct (alloc (OArray []) h1) as [l' h2] eqn:Ha.
  pose proof (alloc_subseteq _ _ _ _ Ha) as Hsub.
  pose proof (alloc_lookup _ _ _ _ Ha) as Hl'.
  unfold alloc in Ha. injection Ha as <- <-.
  exists (<[fresh (dom h1) := OArray []]> h1). by repeat split.
Qed.

Lemma handleAnomalyCorrection_cells st D :
  store st ⊆ store (handleAnomalyCorrection D st).2 ∧
  vehicleStatusData (handleAnomalyCorrection D st).2 = vehicleStatusData st ∧
  chargingData (handleAnomalyCorrection D st).2 = chargingData st ∧
  activeTab (handleAnomalyCorrection D st).2 = activeTab st ∧
  uploadModalOpened (handleAnomalyCorrection D st).2 = uploadModalOpened st ∧
  costCalculatorSignal (handleAnomalyCorrection D st).2 = costCalculatorSignal st.
Proof.
  destruct (pending_rows st) as [pending|] eqn:Hp.
  - destruct (handleAnomalyCorrection_returns st D pending Hp)
      as (h' & Hsub & _ & ->). cbn. repeat split.
    transitivity (applyCorrections pending D (store st)).2; [|done].
    apply applyCorrections_grows.
  - unfold pending_rows in Hp. unfold handleAnomalyCorrection. by rewrite Hp.
Qed.

End Handlers.

(** X9: whatever the outcome, [handleAnomalyCorrection] changes no object
    of the store and leaves the vehicle data, the charging data, the active
    tab, the upload modal and the cost calculator signal as they were. *)
Theorem handleAnomalyCorrection_frame (st : session) (D : list directive) :
  store st ⊆ store (handleAnomalyCorrection D st).2 ∧
  vehicleStatusData (handleAnomalyCorrection D st).2 = vehicleStatusData st ∧
  chargingData (handleAnomalyCorrection D st).2 = chargingData st ∧
  activeTab (handleAnomalyCorrection D st).2 = activeTab st ∧
  uploadModalOpened (handleAnomalyCorrection D st).2 = uploadModalOpened st ∧
  costCalculatorSignal (handleAnomalyCorrection D st).2 = costCalculatorSignal st.
Proof. apply handleAnomalyCorrection_cells. Qed.

(** X10: the handler cannot be applied twice: after a call that returned,
    a second call, with any directives, raises and changes nothing. *)
Theorem second_apply_throws
    (st : session) (D D' : list directive) (pending : list value) :
  pending_rows st = Some pending →
  (handleAnomalyCorrection D st).1 = Returned ∧
  handleAnomalyCorrection D' (handleAnomalyCorrection D st).2
  = (Threw "TypeError", (handleAnomalyCorrection D st).2).
Proof.
  intros Hp.
  destruct (handleAnomalyCorrection_returns st D pending Hp) as (h' & _ & _ & ->).
  done.
Qed.

Lemma second_apply_throws_witness :
  pending_rows Sample.awaiting = Some [Sample.a; Sample.b] ∧
  (handleAnomalyCorrection [Sample.skip 1] Sample.awaiting).1 = Returned ∧
  handleAnomalyCorrection [Sample.skip 0]
    (handleAnomalyCorrection [Sample.skip 1] Sample.awaiting).2
  = (Threw "TypeError", (handleAnomalyCorrection [Sample.skip 1] Sample.awaiting).2).
Proof.
  split; [vm_compute; reflexivity|].
  apply (second_apply_throws Sample.awaiting [Sample.skip 1] [Sample.skip 0]
           [Sample.a; Sample.b]).
  vm_compute. reflexivity.
Defined.

(** X19: after a call that returned, the accepted dataset is an array and
    the three journey tabs show their data view on it, also when the
    corrections removed every row: an empty array is truthy. *)
Theorem journey_views_after_resolve
    (st : session) (D : list directive) (pending : list value) :
  pending_rows st = Some pending →
  Boolean (journeyData (handleAnomalyCorrection D st).2) = true ∧
  (activeTab st = "overview" →
   renderContent (handleAnomalyCorrection D st).2
   = Dashboard (VRef (applyCorrections pending D (store st)).1)
               (costCalculatorSignal st)) ∧
  (activeTab st = "explorer" →
   renderContent (handleAnomalyCorrection D st).2
   = JourneyExplorer (VRef (applyCorrections pending D (store st)).1)) ∧
  (activeTab st = "analytics" →
   renderContent (handleAnomalyCorrection D st).2
   = AnalyticsView (VRef (applyCorrections pending D (store st)).1)).
Proof.
  intros Hp.
  destruct (handleAnomalyCorrection_returns st D pending Hp) as (h' & _ & _ & ->).
  cbn [snd journeyData Boolean]. split; [done|].
  unfold renderContent. cbn [activeTab journeyData costCalculatorSignal Boolean].
  repeat split; by intros ->.
Qed.

Lemma journey_views_after_resolve_witness :
  pending_rows Sample.awaiting = Some [Sample.a; Sample.b] ∧
  activeTab Sample.awaiting = "overview" ∧
  corrected (store Sample.awaiting) [Sample.a; Sample.b]
    [Sample.skip 0; Sample.skip 1] = [] ∧
  renderContent
    (handleAnomalyCorrection [Sample.skip 0; Sample.skip 1] Sample.awaiting).2
  = Dashboard
      (VRef (applyCorrections [Sample.a; Sample.b] [Sample.skip 0; Sample.skip 1]
               (store Sample.awaiting)).1)
      (costCalculatorSignal Sample.awaiting).
Proof.
  assert (pending_rows Sample.awaiting = Some [Sample.a; Sample.b]) as Hp
    by (vm_compute; reflexivity).
  split; [exact Hp|]. split; [reflexivity|]. split; [vm_compute; reflexivity|].
  destruct (journey_views_after_resolve Sample.awaiting
              [Sample.skip 0; Sample.skip 1] [Sample.a; Sample.b] Hp)
    as (_ & Hov & _).
  apply Hov. reflexivity.
Defined.

Section Uploads.

Variable validate :
  value → gmap positive object → option (list value) * gmap positive object.

Implicit Types (h : gmap positive object) (st : session).

(** What a journey upload with issues does, cell by cell. *)
Lemma handleDataLoaded_parks st data issue issues h1 :
  validate data (store st) = (Some (issue :: issues), h1) →
  handleDataLoaded validate "journey" data st
  = (Returned,
     {| store := <[fresh (dom h1) := OArray (issue :: issues)]> h1;
        journeyData := journeyData st;
        vehicleStatusData := vehicleStatusData st;
        chargingData := chargingData st;
        activeTab := activeTab st;
        uploadModalOpened := uploadModalOpened st;
        costCalculatorSignal := costCalculatorSignal st;
        anomalies := VRef (fresh (dom h1));
        pendingJourneyData := data;
        anomalyModalOpened := true |}).
Proof.
  intros Hv. unfold handleDataLoaded. cbn [String.eqb Ascii.eqb Bool.eqb].
  rewrite Hv. reflexivity.
Qed.

(** X11: a journey upload in which the validator finds issues is parked:
    it becomes the pending dataset, the issues become the anomaly list and
    the correction modal opens, while the accepted dataset, the vehicle
    data and the charging data stay and no object of the store changes.
    When the upload is an array the session then awaits correction. *)
Theorem journey_upload_with_issues_parks
    (st : session) (data issue : value) (issues : list value)
    (h1 : gmap positive object) :
  grows validate →
  validate data (store st) = (Some (issue :: issues), h1) →
  (handleDataLoaded validate "journey" data st).1 = Returned ∧
  journeyData (handleDataLoaded validate "journey" data st).2 = journeyData st ∧
  pendingJourneyData (handleDataLoaded validate "journey" data st).2 = data ∧
  anomaly_rows (handleDataLoaded validate "journey" data st).2
  = Some (issue :: issues) ∧
  anomalyModalOpened (handleDataLoaded validate "journey" data st).2 = true ∧
  vehicleStatusData (handleDataLoaded validate "journey" data st).2
  = vehicleStatusData st ∧
  chargingData (handleDataLoaded validate "journey" data st).2 = chargingData st ∧
  store st ⊆ store (handleDataLoaded validate "journey" data st).2 ∧
  ∀ rows, iterate (store st) data = Some rows →
          pending_rows (handleDataLoaded validate "journey" data st).2 = Some rows ∧
          awaiting_correction (handleDataLoaded validate "journey" data st).2 = true.
Proof.
  intros Hgrows Hv. rewrite (handleDataLoaded_parks _ _ _ _ _ Hv).
  cbn [fst snd journeyData pendingJourneyData anomalyModalOpened
       vehicleStatusData chargingData store].
  assert (h1 !! fresh (dom h1) = None) as Hfresh.
  { apply not_elem_of_dom, is_fresh. }
  assert (store st ⊆ <[fresh (dom h1) := OArray (issue :: issues)]> h1) as Hsub.
  { transitivity h1; [by eapply Hgrows|]. by apply insert_subseteq. }
  assert (anomaly_rows
            {| store := <[fresh (dom h1) := OArray (issue :: issues)]> h1;
               journeyData := journeyData st;
               vehicleStatusData := vehicleStatusData st;
               chargingData := chargingData st;
               activeTab := activeTab st;
               uploadModalOpened := uploadModalOpened st;
               costCalculatorSignal := costCalculatorSignal st;
               anomalies := VRef (fresh (dom h1));
               pendingJourneyData := data;
               anomalyModalOpened := true |} = Some (issue :: issues)) as Han.
  { unfold anomaly_rows. cbn [store anomalies iterate].
    by rewrite lookup_insert_eq. }
  repeat split; try done.
  - unfold pending_rows. cbn [store pendingJourneyData].
    by apply (iterate_weaken (store st)).
  - unfold awaiting_correction. rewrite Han.
    unfold pending_rows. cbn [store pendingJourneyData].
    by rewrite (iterate_weaken (store st) _ data rows Hsub).
Qed.

(** X12: a journey upload without issues is accepted at once, and nothing
    else is reset: a dataset parked earlier, its anomaly list and the state
    of the correction modal stay as they were. *)
Theorem clean_journey_upload_accepts
    (st : session) (data : value) (h1 : gmap positive object) :
  validate data (store st) = (Some [], h1) →
  (handleDataLoaded validate "journey" data st).1 = Returned ∧
  journeyData (handleDataLoaded validate "journey" data st).2 = data ∧
  pendingJourneyData (handleDataLoaded validate "journey" data st).2
  = pendingJourneyData st ∧
  anomalies (handleDataLoaded validate "journey" data st).2 = anomalies st ∧
  anomalyModalOpened (handleDataLoaded validate "journey" data st).2
  = anomalyModalOpened st.
Proof.
  intros Hv. unfold handleDataLoaded. cbn [String.eqb Ascii.eqb Bool.eqb].
  rewrite Hv. done.
Qed.

(** X13: an upload of another type never runs the validator and never
    touches the store, the accepted or the pending dataset, the anomaly
    list or the correction modal; with a type that is none of the five
    known ones the session is left exactly as it was. *)
Theorem other_uploads_leave_journey_cells
    (st : session) (type : string) (data : value) :
  type ≠ "journey" →
  (handleDataLoaded validate type data st).1 = Returned ∧
  store (handleDataLoaded validate type data st).2 = store st ∧
  journeyData (handleDataLoaded validate type data st).2 = journeyData st ∧
  pendingJourneyData (handleDataLoaded validate type data st).2
  = pendingJourneyData st ∧
  anomalies (handleDataLoaded validate type data st).2 = anomalies st ∧
  anomalyModalOpened (handleDataLoaded validate type data st).2
  = anomalyModalOpened st ∧
  (type ≠ "vehicle" → type ≠ "vts" → type ≠ "charging" → type ≠ "chronos" →
   (handleDataLoaded validate type data st).2 = st).
Proof.
  intros Hj%String.eqb_neq. unfold handleDataLoaded. rewrite Hj.
  repeat split;
    try (destruct (String.eqb type "vehicle" || String.eqb type "vts"),
                  (String.eqb type "charging" || String.eqb type "chronos");
         reflexivity).
  intros Hv%String.eqb_neq Hvt%String.eqb_neq Hc%String.eqb_neq Hch%String.eqb_neq.
  rewrite Hv, Hvt, Hc, Hch. reflexivity.
Qed.

(** X14: upload, then apply.  When a journey upload that is an array was
    parked, applying a directive list makes the accepted dataset the
    corrected upload and empties the anomaly list; applying no directive
    accepts the truthy rows of the upload. *)
Theorem upload_then_apply
    (st : session) (data issue : value) (issues rows : list value)
    (h1 : gmap positive object) (D : list directive) :
  grows validate →
  validate data (store st) = (Some (issue :: issues), h1) →
  iterate (store st) data = Some rows →
  iterate (store (run validate st [DataLoaded "journey" data; Apply D]))
          (journeyData (run validate st [DataLoaded "journey" data; Apply D]))
  = Some (corrected (store (handleDataLoaded validate "journey" data st).2) rows D) ∧
  pendingJourneyData (run validate st [DataLoaded "journey" data; Apply D]) = VNull ∧
  anomaly_rows (run validate st [DataLoaded "journey" data; Apply D]) = Some [] ∧
  iterate (store (run validate st [DataLoaded "journey" data; Apply []]))
          (journeyData (run validate st [DataLoaded "journey" data; Apply []]))
  = Some (filter (λ v, Boolean v = true) rows).
Proof.
  intros Hgrows Hv Hrows.
  assert (∀ D',
    iterate (store (run validate st [DataLoaded "journey" data; Apply D']))
            (journeyData (run validate st [DataLoaded "journey" data; Apply D']))
    = Some (corrected (store (handleDataLoaded validate "journey" data st).2) rows D') ∧
    pendingJourneyData (run validate st [DataLoaded "journey" data; Apply D']) = VNull ∧
    anomaly_rows (run validate st [DataLoaded "journey" data; Apply D']) = Some [])
    as Hgen.
  { intros D'. unfold run. cbn [foldl dispatch].
    set (st1 := (handleDataLoaded validate "journey" data st).2).
    assert (pending_rows st1 = Some rows) as Hp.
    { unfold st1. rewrite (handleDataLoaded_parks _ _ _ _ _ Hv).
      unfold pending_rows. cbn [snd store pendingJourneyData].
      apply (iterate_weaken (store st)); [|done].
      transitivity h1; [by eapply Hgrows|].
      apply insert_subseteq, not_elem_of_dom, is_fresh. }
    destruct (handleAnomalyCorrection_returns st1 D' rows Hp)
      as (h' & Hsub & Hempty & ->).
    unfold anomaly_rows.
    cbn [snd store journeyData pendingJourneyData anomalies iterate].
    rewrite Hempty.
    destruct (applyCorrections_run rows D' (store st1))
      as (_ & mapped & _ & _ & _ & _ & _ & _ & Hfinal).
    rewrite (lookup_weaken _ _ _ _ Hfinal Hsub).
    by rewrite (corrected_rows _ _ _ _ Hfinal). }
  destruct (Hgen D) as (H1 & H2 & H3). repeat split; try done.
  destruct (Hgen []) as (H4 & _). by rewrite H4, corrected_no_directive.
Qed.

End Uploads.

(** ** What holds after any sequence of events *)

Section Reachable.

Variable validate :
  value → gmap positive object → option (list value) * gmap positive object.

Implicit Types (h : gmap positive object) (st : session) (e : event).

Lemma run_invariant (P : session → Prop) :
  (∀ st e, P st → P (dispatch validate st e)) →
  ∀ events st, P st → P (run validate st events).
Proof.
  intros Hstep events. unfold run.
  induction events as [|e events IH]; intros st Hst; [done|].
  simpl. by apply IH, Hstep.
Qed.

Lemma handleDataLoaded_cases type data st :
  (handleDataLoaded validate type data st).2 = st ∨
  (∃ vd cd, (handleDataLoaded validate type data st).2
            = {| store := store st;
                 journeyData := journeyData st;
                 vehicleStatusData := vd;
                 chargingData := cd;
                 activeTab := activeTab st;
                 uploadModalOpened := uploadModalOpened st;
                 costCalculatorSignal := costCalculatorSignal st;
                 anomalies := anomalies st;
                 pendingJourneyData := pendingJourneyData st;
                 anomalyModalOpened := anomalyModalOpened st |}) ∨
  (∃ issue issues h1,
     validate data (store st) = (Some (issue :: issues), h1) ∧
     (handleDataLoaded validate type data st).2
     = {| store := <[fresh (dom h1) := OArray (issue :: issues)]> h1;
          journeyData := journeyData st;
          vehicleStatusData := vehicleStatusData st;
          chargingData := chargingData st;
          activeTab := activeTab st;
          uploadModalOpened := uploadModalOpened st;
          costCalculatorSignal := costCalculatorSignal st;
          anomalies := VRef (fresh (dom h1));
          pendingJourneyData := data;
          anomalyModalOpened := true |}) ∨
  (∃ h1,
     validate data (store st) = (Some [], h1) ∧
     (handleDataLoaded validate type data st).2
     = {| store := <[fresh (dom h1) := OArray []]> h1;
          journeyData := data;
          vehicleStatusData := vehicleStatusData st;
          chargingData := chargingData st;
          activeTab := activeTab st;
          uploadModalOpened := uploadModalOpened st;
          costCalculatorSignal := costCalculatorSignal st;
          anomalies := anomalies st;
          pendingJourneyData := pendingJourneyData st;
          anomalyModalOpened := anomalyModalOpened st |}).
Proof.
  unfold handleDataLoaded.
  destruct (String.eqb type "journey") eqn:Hj.
  - apply String.eqb_eq in Hj. subst type. cbn [String.eqb Ascii.eqb Bool.eqb orb].
    destruct (validate data (store st)) as [[[|issue issues]|] h1] eqn:Hv.
    + right. right. right. exists h1. by split.
    + right. right. left. exists issue, issues, h1. by split.
    + by left.
  - destruct (String.eqb type "vehicle" || String.eqb type "vts"),
             (String.eqb type "charging" || String.eqb type "chronos");
      [right; left; eexists _, _; reflexivity ..|by left].
Qed.

(** X15: the sessions reached from one in which it holds satisfy: while a
    dataset is pending or the correction modal is open, the anomaly list is
    an array with at least one entry. *)
Theorem parked_sessions_have_anomalies (st : session) (events : list event) :
  grows validate →
  parked_has_anomalies st →
  parked_has_anomalies (run validate st events).
Proof.
  intros Hgrows. revert st. apply run_invariant. clear events.
  intros st e Hinv. destruct e as [type data|D| |i| | |]; cbn [dispatch].
  - destruct (handleDataLoaded_cases type data st)
      as [->|[(vd & cd & ->)|[(issue & issues & h1 & Hv & ->)|(h1 & Hv & ->)]]].
    + done.
    + exact Hinv.
    + intros _. exists issue, issues. unfold anomaly_rows.
      cbn [store anomalies iterate]. by rewrite lookup_insert_eq.
    + intros Hp. destruct (Hinv Hp) as (issue & issues & Han).
      exists issue, issues. unfold anomaly_rows in *. cbn [store anomalies].
      apply (iterate_weaken (store st)); [|done].
      transitivity h1; [by eapply Hgrows|].
      apply insert_subseteq, not_elem_of_dom, is_fresh.
  - destruct (pending_rows st) as [pending|] eqn:Hp.
    + destruct (handleAnomalyCorrection_returns st D pending Hp)
        as (h' & _ & _ & ->).
      intros [H|H]; cbn in H; congruence.
    + unfold pending_rows in Hp. unfold handleAnomalyCorrection. by rewrite Hp.
  - intros [H|H]; cbn in H; [|done]. apply Hinv. by left.
  - destruct (_ !! i); exact Hinv.
  - exact Hinv.
  - exact Hinv.
  - exact Hinv.
Qed.

(** X16: the active tab is always one of the six links of the layout when
    it was so at the start, hence [renderContent] never falls to its
    default [null], and its [planner] case, the trip planner, is never
    shown. *)
Theorem active_tab_is_a_link (st : session) (events : list event) :
  activeTab st ∈ mainLinks ++ vehicleLinks →
  activeTab (run validate st events) ∈ mainLinks ++ vehicleLinks ∧
  renderContent (run validate st events) ≠ Nothing ∧
  renderContent (run validate st events) ≠ TripPlanner.
Proof.
  intros Hst.
  assert (activeTab (run validate st events) ∈ mainLinks ++ vehicleLinks) as Htab.
  { apply (run_invariant (λ s, activeTab s ∈ mainLinks ++ vehicleLinks)); [|done].
    clear. intros st e Hinv. destruct e as [type data|D| |i| | |]; cbn [dispatch]; try done.
    - destruct (handleDataLoaded_cases type data st)
        as [->|[(vd & cd & ->)|[(issue & issues & h1 & Hv & ->)|(h1 & Hv & ->)]]];
        done.
    - by destruct (handleAnomalyCorrection_cells st D) as (_ & _ & _ & -> & _).
    - destruct (_ !! i) as [tab|] eqn:Hi; [|done].
      cbn [setActiveTab activeTab]. by eapply list_elem_of_lookup_2.
    - cbn. left. }
  split; [done|].
  apply list_elem_of_In in Htab. unfold renderContent.
  cbn in Htab.
  destruct Htab as [<-|[<-|[<-|[<-|[<-|[<-|[]]]]]]]; cbn;
    split; repeat case_match; discriminate.
Qed.

Lemma cost_clicks_cons e events :
  cost_clicks (e :: events)
  = (if is_cost_click e then 1 else 0) + cost_clicks events.
Proof. unfold cost_clicks. simpl. by destruct (is_cost_click e). Qed.

(** X17: the cost calculator signal counts the requests for the cost
    calculator: after any events it is its initial value plus the number of
    clicks among them, and no other event changes it. *)
Theorem signal_counts_cost_clicks (st : session) (events : list event) :
  costCalculatorSignal (run validate st events)
  = (costCalculatorSignal st + Z.of_nat (cost_clicks events))%Z.
Proof.
  revert st. unfold run. induction events as [|e events IH]; intros st.
  { unfold cost_clicks. simpl. lia. }
  cbn [foldl]. rewrite IH, cost_clicks_cons.
  destruct e as [type data|D| |i| | |]; cbn [dispatch is_cost_click].
  - destruct (handleDataLoaded_cases type data st)
      as [->|[(vd & cd & ->)|[(issue & issues & h1 & Hv & ->)|(h1 & Hv & ->)]]];
      cbn [costCalculatorSignal]; lia.
  - destruct (handleAnomalyCorrection_cells st D) as (_ & _ & _ & _ & _ & ->). lia.
  - cbn. lia.
  - destruct (_ !! i); cbn; lia.
  - cbn. lia.
  - cbn. lia.
  - cbn. lia.
Qed.

(** X18: no event changes or removes an object of the store: uploaded
    datasets, their rows and earlier results stay what they were, whatever
    the user does afterwards. *)
Theorem store_only_grows (st : session) (events : list event) :
  grows validate →
  store st ⊆ store (run validate st events).
Proof.
  intros Hgrows.
  apply (run_invariant (λ st', store st ⊆ store st')); [|done].
  clear events. intros st' e Hinv. transitivity (store st'); [done|].
  destruct e as [type data|D| |i| | |]; cbn [dispatch]; try done.
  - destruct (handleDataLoaded_cases type data st')
      as [->|[(vd & cd & ->)|[(issue & issues & h1 & Hv & ->)|(h1 & Hv & ->)]]];
      cbn [store]; try done.
    + transitivity h1; [by eapply Hgrows|].
      apply insert_subseteq, not_elem_of_dom, is_fresh.
    + transitivity h1; [by eapply Hgrows|].
      apply insert_subseteq, not_elem_of_dom, is_fresh.
  - by destruct (handleAnomalyCorrection_cells st' D) as (? & _).
  - by destruct (_ !! i).
Qed.

End Reachable.

(** ** The statements on uploads and events at the sample validator *)

Lemma Demo_issues_from_grows (rows : list value) (i : nat)
    (h : gmap positive object) :
  h ⊆ (Demo.issues_from i rows h).2.
Proof.
  revert i h. induction rows as [|row rows IH]; intros i h; [done|].
  cbn [Demo.issues_from].
  destruct (getField h row "distance") as [| | |n| |]; try apply IH.
  destruct (n <? 0)%Z; [|apply IH].
  destruct (alloc _ h) as [l h1] eqn:Ha.
  specialize (IH (S i) h1).
  destruct (Demo.issues_from (S i) rows h1) as [ls h2]. cbn [snd] in *.
  transitivity h1; [by eapply alloc_subseteq|done].
Qed.

Lemma Demo_validate_grows : grows Demo.validate.
Proof.
  intros data h issues h' Hv. unfold Demo.validate in Hv.
  destruct (iterate h data) as [rows|]; [|done].
  pose proof (Demo_issues_from_grows rows 0 h) as Hsub.
  destruct (Demo.issues_from 0 rows h) as [ls h'']. by injection Hv as _ <-.
Qed.

Lemma journey_upload_with_issues_parks_witness :
  let h1 := <[11%positive := ORecord (<["tripIndex" := VNum 1]> ∅)]>
              (store Demo.start) in
  let st' := (handleDataLoaded Demo.validate "journey" (VRef 6) Demo.start).2 in
  (grows Demo.validate ∧
   Demo.validate (VRef 6) (store Demo.start) = (Some [VRef 11], h1)) ∧
  pendingJourneyData st' = VRef 6 ∧
  anomaly_rows st' = Some [VRef 11] ∧
  pending_rows st' = Some [Sample.a; Sample.b] ∧
  awaiting_correction st' = true.
Proof.
  assert (Demo.validate (VRef 6) (store Demo.start)
          = (Some [VRef 11],
             <[11%positive := ORecord (<["tripIndex" := VNum 1]> ∅)]>
               (store Demo.start))) as Hv by (vm_compute; reflexivity).
  split; [split; [exact Demo_validate_grows|exact Hv]|].
  destruct (journey_upload_with_issues_parks Demo.validate Demo.start (VRef 6)
              (VRef 11) [] _ Demo_validate_grows Hv)
    as (_ & _ & Hp & Han & _ & _ & _ & _ & Hrows).
  split; [exact Hp|]. split; [exact Han|].
  apply Hrows. vm_compute. reflexivity.
Defined.

Lemma clean_journey_upload_accepts_witness :
  let st := closeAnomalyModal
              (handleDataLoaded Demo.validate "journey" (VRef 6) Demo.start).2 in
  Demo.validate (VRef 7) (store st) = (Some [], store st) ∧
  journeyData (handleDataLoaded Demo.validate "journey" (VRef 7) st).2 = VRef 7 ∧
  pendingJourneyData (handleDataLoaded Demo.validate "journey" (VRef 7) st).2
  = VRef 6 ∧
  anomalies (handleDataLoaded Demo.validate "journey" (VRef 7) st).2 = VRef 12.
Proof.
  assert (Demo.validate (VRef 7)
            (store (closeAnomalyModal
                      (handleDataLoaded Demo.validate "journey" (VRef 6)
                         Demo.start).2))
          = (Some [],
             store (closeAnomalyModal
                      (handleDataLoaded Demo.validate "journey" (VRef 6)
                         Demo.start).2))) as Hv by (vm_compute; reflexivity).
  split; [exact Hv|].
  destruct (clean_journey_upload_accepts Demo.validate _ (VRef 7) _ Hv)
    as (_ & Hj & Hp & Han & _).
  split; [exact Hj|]. split; [rewrite Hp|rewrite Han]; vm_compute; reflexivity.
Defined.

Lemma other_uploads_leave_journey_cells_witness :
  "vts" ≠ "journey" ∧
  journeyData (handleDataLoaded Demo.validate "vts" (VRef 5) Sample.awaiting).2
  = journeyData Sample.awaiting ∧
  pendingJourneyData
    (handleDataLoaded Demo.validate "vts" (VRef 5) Sample.awaiting).2
  = pendingJourneyData Sample.awaiting.
Proof.
  assert ("vts" ≠ "journey") as H by discriminate.
  split; [exact H|].
  destruct (other_uploads_leave_journey_cells Demo.validate Sample.awaiting
              "vts" (VRef 5) H) as (_ & _ & Hj & Hp & _).
  split; [exact Hj|exact Hp].
Defined.

Lemma upload_then_apply_witness :
  let h1 := <[11%positive := ORecord (<["tripIndex" := VNum 1]> ∅)]>
              (store Demo.start) in
  let events := [DataLoaded "journey" (VRef 6); Apply [Sample.skip 1]] in
  (grows Demo.validate ∧
   Demo.validate (VRef 6) (store Demo.start) = (Some [VRef 11], h1) ∧
   iterate (store Demo.start) (VRef 6) = Some [Sample.a; Sample.b]) ∧
  iterate (store (run Demo.validate Demo.start events))
          (journeyData (run Demo.validate Demo.start events))
  = Some (corrected
            (store (handleDataLoaded Demo.validate "journey" (VRef 6) Demo.start).2)
            [Sample.a; Sample.b] [Sample.skip 1]) ∧
  pendingJourneyData (run Demo.validate Demo.start events) = VNull.
Proof.
  assert (Demo.validate (VRef 6) (store Demo.start)
          = (Some [VRef 11],
             <[11%positive := ORecord (<["tripIndex" := VNum 1]> ∅)]>
               (store Demo.start))) as Hv by (vm_compute; reflexivity).
  assert (iterate (store Demo.start) (VRef 6) = Some [Sample.a; Sample.b]) as Hr
    by (vm_compute; reflexivity).
  split; [split; [exact Demo_validate_grows|split; [exact Hv|exact Hr]]|].
  destruct (upload_then_apply Demo.validate Demo.start (VRef 6) (VRef 11) []
              [Sample.a; Sample.b] _ [Sample.skip 1] Demo_validate_grows Hv Hr)
    as (H1 & H2 & _).
  split; [exact H1|exact H2].
Defined.

Lemma parked_sessions_have_anomalies_witness :
  let events := [DataLoaded "journey" (VRef 6); CloseAnomaly;
                 DataLoaded "journey" (VRef 7); LinkClick 1] in
  (grows Demo.validate ∧ parked_has_anomalies Demo.start) ∧
  parked_has_anomalies (run Demo.validate Demo.start events).
Proof.
  assert (parked_has_anomalies Demo.start) as H0.
  { intros [H|H]; [by destruct H|discriminate H]. }
  split; [split; [exact Demo_validate_grows|exact H0]|].
  exact (parked_sessions_have_anomalies Demo.validate Demo.start
           [DataLoaded "journey" (VRef 6); CloseAnomaly;
            DataLoaded "journey" (VRef 7); LinkClick 1]
           Demo_validate_grows H0).
Defined.

Lemma active_tab_is_a_link_witness :
  let events := [LinkClick 4; DataLoaded "vts" (VRef 5); LinkClick 9] in
  activeTab Demo.start ∈ mainLinks ++ vehicleLinks ∧
  activeTab (run Demo.validate Demo.start events) ∈ mainLinks ++ vehicleLinks ∧
  renderContent (run Demo.validate Demo.start events) ≠ Nothing ∧
  renderContent (run Demo.validate Demo.start events) ≠ TripPlanner.
Proof.
  assert (activeTab Demo.start ∈ mainLinks ++ vehicleLinks) as H0.
  { apply list_elem_of_In. simpl. left. reflexivity. }
  split; [exact H0|].
  exact (active_tab_is_a_link Demo.validate Demo.start
           [LinkClick 4; DataLoaded "vts" (VRef 5); LinkClick 9] H0).
Defined.

Lemma store_only_grows_witness :
  let events := [DataLoaded "journey" (VRef 6); Apply [Sample.skip 1];
                 DataLoaded "journey" (VRef 7)] in
  grows Demo.validate ∧
  store Demo.start ⊆ store (run Demo.validate Demo.start events).
Proof.
  split; [exact Demo_validate_grows|].
  exact (store_only_grows Demo.validate Demo.start
           [DataLoaded "journey" (VRef 6); Apply [Sample.skip 1];
            DataLoaded "journey" (VRef 7)] Demo_validate_grows).
Defined.

(** X20: parking an upload does not change what is on screen: after a
    journey upload with issues [renderContent] shows what it showed before,
    on every tab, the earlier accepted dataset included. *)
Theorem parked_upload_keeps_view
    (validate : value → gmap positive object
                → option (list value) * gmap positive object)
    (st : session) (data issue : value) (issues : list value)
    (h1 : gmap positive object) :
  grows validate →
  validate data (store st) = (Some (issue :: issues), h1) →
  closed (store st) (vehicleStatusData st) = true →
  renderContent (handleDataLoaded validate "journey" data st).2 = renderContent st.
Proof.
  intros Hgrows Hv Hcl. rewrite (handleDataLoaded_parks _ _ _ _ _ _ Hv).
  unfold renderContent, getField.
  cbn [snd store journeyData vehicleStatusData chargingData activeTab
       costCalculatorSignal].
  rewrite (closed_ownProps (store st)); [done| |done].
  transitivity h1; [by eapply Hgrows|].
  apply insert_subseteq, not_elem_of_dom, is_fresh.
Qed.

Lemma parked_upload_keeps_view_witness :
  let h1 := <[11%positive := ORecord (<["tripIndex" := VNum 1]> ∅)]>
              (store Demo.start) in
  (grows Demo.validate ∧
   Demo.validate (VRef 6) (store Demo.start) = (Some [VRef 11], h1) ∧
   closed (store Demo.start) (vehicleStatusData Demo.start) = true) ∧
  renderContent (handleDataLoaded Demo.validate "journey" (VRef 6) Demo.start).2
  = renderContent Demo.start.
Proof.
  assert (Demo.validate (VRef 6) (store Demo.start)
          = (Some [VRef 11],
             <[11%positive := ORecord (<["tripIndex" := VNum 1]> ∅)]>
               (store Demo.start))) as Hv by (vm_compute; reflexivity).
  assert (closed (store Demo.start) (vehicleStatusData Demo.start) = true) as Hc
    by reflexivity.
  split; [split; [exact Demo_validate_grows|split; [exact Hv|exact Hc]]|].
  exact (parked_upload_keeps_view Demo.validate Demo.start (VRef 6) (VRef 11) [] _
           Demo_validate_grows Hv Hc).
Defined.

(** ** Properties of the charging split *)

(** X21: whatever is typed into the two percentage inputs, in whatever
    order, the home share stays between 0 and 100 and so does the public
    share, which is its complement to 100. *)
Theorem charging_split_stays_in_range
    (home : Z) (changes : list CostCalculator.change) :
  (0 ≤ home ≤ 100)%Z →
  (0 ≤ foldl CostCalculator.apply_change home changes ≤ 100)%Z ∧
  (0 ≤ CostCalculator.publicChargingPercent
         (foldl CostCalculator.apply_change home changes) ≤ 100)%Z.
Proof.
  intros Hhome.
  assert (0 ≤ foldl CostCalculator.apply_change home changes ≤ 100)%Z as H.
  { revert home Hhome. induction changes as [|c changes IH]; intros home Hhome.
    { done. }
    cbn [foldl]. apply IH.
    destruct c as [[v|]|[v|]]; cbn;
      unfold CostCalculator.clampPercent; lia. }
  split; [done|]. unfold CostCalculator.publicChargingPercent. lia.
Qed.

Lemma charging_split_stays_in_range_witness :
  (0 ≤ 80 ≤ 100)%Z ∧
  (0 ≤ foldl CostCalculator.apply_change 80%Z
         [CostCalculator.HomeInput (Some 250%Z); CostCalculator.PublicInput None;
          CostCalculator.PublicInput (Some (-3)%Z)] ≤ 100)%Z ∧
  (0 ≤ CostCalculator.publicChargingPercent
         (foldl CostCalculator.apply_change 80%Z
            [CostCalculator.HomeInput (Some 250%Z); CostCalculator.PublicInput None;
             CostCalculator.PublicInput (Some (-3)%Z)]) ≤ 100)%Z.
Proof.
  assert (0 ≤ 80 ≤ 100)%Z as H by lia.
  split; [exact H|].
  exact (charging_split_stays_in_range 80%Z
           [CostCalculator.HomeInput (Some 250%Z); CostCalculator.PublicInput None;
            CostCalculator.PublicInput (Some (-3)%Z)] H).
Defined.

(** X22: a percentage between 0 and 100 typed into either input is the
    share that input then shows, and the other input shows its complement;
    a value below 0 counts as 0, a value above 100 as 100, and an emptied
    input as 0 for its own share. *)
Theorem percent_inputs_round_trip (v : Z) :
  ((0 ≤ v ≤ 100)%Z →
   CostCalculator.handleHomePercentChange (Some v) = v ∧
   CostCalculator.publicChargingPercent
     (CostCalculator.handlePublicPercentChange (Some v)) = v ∧
   CostCalculator.publicChargingPercent
     (CostCalculator.handleHomePercentChange (Some v)) = (100 - v)%Z) ∧
  ((v < 0)%Z →
   CostCalculator.handleHomePercentChange (Some v) = 0%Z ∧
   CostCalculator.publicChargingPercent
     (CostCalculator.handlePublicPercentChange (Some v)) = 0%Z) ∧
  ((100 < v)%Z →
   CostCalculator.handleHomePercentChange (Some v) = 100%Z ∧
   CostCalculator.publicChargingPercent
     (CostCalculator.handlePublicPercentChange (Some v)) = 100%Z) ∧
  CostCalculator.handleHomePercentChange None = 0%Z ∧
  CostCalculator.publicChargingPercent
    (CostCalculator.handlePublicPercentChange None) = 0%Z.
Proof.
  unfold CostCalculator.handleHomePercentChange,
    CostCalculator.handlePublicPercentChange,
    CostCalculator.publicChargingPercent, CostCalculator.clampPercent.
  repeat split; lia.
Qed.

Lemma percent_inputs_round_trip_witness :
  (0 ≤ 35 ≤ 100)%Z ∧
  CostCalculator.handleHomePercentChange (Some 35%Z) = 35%Z ∧
  CostCalculator.publicChargingPercent
    (CostCalculator.handlePublicPercentChange (Some 35%Z)) = 35%Z.
Proof.
  assert (0 ≤ 35 ≤ 100)%Z as H by lia.
  split; [exact H|].
  destruct (percent_inputs_round_trip 35%Z) as (Hin & _).
  destruct (Hin H) as (H1 & H2 & _).
  split; [exact H1|exact H2].
Defined.
